(** * Photo Frame backend (REST/PhotoFrame/app.js): paginated fetch, caches and
    last-query replay.

    The development embeds the server side of the sample: the two fetchers
    [libraryApiSearch] and [libraryApiGetAlbums], the helpers [returnPhotos],
    [returnError] and [constructDate], and the four data routes
    (/loadFromSearch, /loadFromAlbum, /getAlbums, /getQueue).

    JavaScript data is embedded as JSON values plus [undefined]; object
    literals are field lists in insertion order.  Numbers are integers (status
    codes, page sizes); NaN and fractions do not occur in the code paths
    modelled here. *)

From Stdlib Require Import ZArith String List Bool Lia.
From stdpp Require Import gmap strings list fin_maps.

Local Open Scope string_scope.
Local Open Scope Z_scope.
Local Open Scope list_scope.

(** ** JavaScript values *)

#[warnings="-register-all"] Inductive value : Type :=
| VUndefined
| VNull
| VBool (b : bool)
| VNum (n : Z)
| VStr (s : string)
| VArr (xs : list value)
| VObj (fields : list (string * value)).

(** An object literal: its own properties, in insertion order. *)
Abbreviation obj := (list (string * value)).

(** ToBoolean. *)
Definition truthy (v : value) : bool :=
  match v with
  | VUndefined | VNull => false
  | VBool b => b
  | VNum n => negb (n =? 0)
  | VStr s => negb (String.eqb s "")
  | VArr _ | VObj _ => true
  end.

(** [v == null], true exactly for [null] and [undefined]. *)
Definition nullish (v : value) : bool :=
  match v with
  | VUndefined | VNull => true
  | _ => false
  end.

(** [a || b] *)
Definition js_or (a b : value) : value := if truthy a then a else b.

(** ** Completions: a computation returns a value or throws one *)

Inductive result (A : Type) : Type :=
| Ok (a : A)
| Throw (e : value).
Arguments Ok {A} a.
Arguments Throw {A} e.

Definition and_then {A B : Type} (m : result A) (f : A -> result B) : result B :=
  match m with
  | Ok a => f a
  | Throw e => Throw e
  end.

Notation "'let!' x ':=' m 'in' k" := (and_then m (fun x => k))
  (at level 10, x name, m at level 100, k at level 200).

(** The engine's TypeError, as the plain object a handler can inspect: it has
    a name and a message, and no [error] or [statusCode] property. *)
Definition TypeError (message : string) : value :=
  VObj [("name", VStr "TypeError"); ("message", VStr message)].

(** ** Reading and writing properties *)

Fixpoint lookup_field (p : string) (o : obj) : option value :=
  match o with
  | [] => None
  | (k, v) :: o' => if String.eqb k p then Some v else lookup_field p o'
  end.

(** [o.p] on an object literal: a missing property reads as [undefined]. *)
Definition get_field (p : string) (o : obj) : value :=
  default VUndefined (lookup_field p o).

(** [o.p = v]: overwrite in place, or append a new own property. *)
Fixpoint set_field (p : string) (v : value) (o : obj) : obj :=
  match o with
  | [] => [(p, v)]
  | (k, w) :: o' =>
      if String.eqb k p then (k, v) :: o' else (k, w) :: set_field p v o'
  end.

(** [delete o.p] *)
Fixpoint delete_field (p : string) (o : obj) : obj :=
  match o with
  | [] => []
  | (k, w) :: o' =>
      if String.eqb k p then delete_field p o' else (k, w) :: delete_field p o'
  end.

Definition has_field (p : string) (o : obj) : bool :=
  match lookup_field p o with Some _ => true | None => false end.

(** [v.p] for a data property [p] (none of the names read by the program is
    [length] or an index): reading from [undefined] or [null] throws, JSON
    arrays and primitives have no such property. *)
Definition get_prop (v : value) (p : string) : result value :=
  match v with
  | VUndefined => Throw (TypeError "Cannot read properties of undefined")
  | VNull => Throw (TypeError "Cannot read properties of null")
  | VObj o => Ok (get_field p o)
  | VBool _ | VNum _ | VStr _ | VArr _ => Ok VUndefined
  end.

(** ** config.js and the logger

    Neither the configuration module nor the logging library is part of the
    sources at hand.  The three values the fetchers read from the former are
    fields of a record the development is parameterised by, and so is what
    the latter does to an object passed to [logger.error]: it may assign the
    object's [level] property, and [loggedLevel] gives the label it assigns
    to a given object, if it assigns one. *)

Record Config : Type := mkConfig {
  searchPageSize : value;
  albumPageSize : value;
  photosToLoad : Z;
  loggedLevel : value -> option value;
}.

Section PhotoFrame.

Variable config : Config.

(** ** The upstream Library API

    Each awaited request either resolves with the parsed response body or
    rejects with an exception object.  A run of the server is driven by a
    script: the completions of the successive requests.  [None] from a fetcher
    means the script ended while the loop was still asking for a page. *)

Abbreviation script := (list (result value)).

(** What one request carried: the bearer token and the JSON body (or query
    string) sent. *)
Record ApiCall : Type := mkApiCall {
  bearer : value;
  json : obj;
}.

(** *** libraryApiSearch *)

(** [x => x.mimeType && x.mimeType.startsWith('image/')], on a truthy [x].
    Calling [startsWith] on a truthy non-string throws. *)
Definition is_image (x : value) : result bool :=
  let! m := get_prop x "mimeType" in
  if truthy m then
    match m with
    | VStr s => Ok (String.prefix "image/" s)
    | _ => Throw (TypeError "x.mimeType.startsWith is not a function")
    end
  else Ok false.

(** [xs.filter(x => x).filter(is_image)]: the second pass runs over the truthy
    items, left to right, and stops at the first throw. *)
Fixpoint filter_images (xs : list value) : result (list value) :=
  match xs with
  | [] => Ok []
  | x :: xs' =>
      let! keep := is_image x in
      let! rest := filter_images xs' in
      Ok (if keep then x :: rest else rest)
  end.

(** [result && result.mediaItems ? result.mediaItems.filter(..).filter(..) : []] *)
Definition search_items (res : value) : result (list value) :=
  if truthy res then
    let! items := get_prop res "mediaItems" in
    if truthy items then
      match items with
      | VArr xs => filter_images (List.filter truthy xs)
      | _ => Throw (TypeError "result.mediaItems.filter is not a function")
      end
    else Ok []
  else Ok [].

(** State of the fetcher's local variables when the [try] block is left. *)
Record SearchLoop : Type := mkSearchLoop {
  loop_photos : list value;
  loop_parameters : obj;
  loop_thrown : option value;       (* the exception caught, if any *)
  loop_calls : list ApiCall;        (* requests made, oldest first *)
  loop_rest : script;
}.

(** The [do { .. } while (..)] loop inside the [try]. *)
Fixpoint search_loop (authToken : value) (s : script) (photos : list value)
    (parameters : obj) (calls : list ApiCall) : option SearchLoop :=
  match s with
  | [] => None
  | completion :: s' =>
      let calls' := calls ++ [mkApiCall authToken parameters] in
      match completion with
      | Throw err => Some (mkSearchLoop photos parameters (Some err) calls' s')
      | Ok res =>
          match search_items res with
          | Throw err =>
              Some (mkSearchLoop photos parameters (Some err) calls' s')
          | Ok items =>
              let photos' := photos ++ items in
              match get_prop res "nextPageToken" with
              | Throw err =>
                  Some (mkSearchLoop photos' parameters (Some err) calls' s')
              | Ok token =>
                  let parameters' := set_field "pageToken" token parameters in
                  if (Z.of_nat (length photos') <? photosToLoad config)
                       && negb (nullish token)
                  then search_loop authToken s' photos' parameters' calls'
                  else Some (mkSearchLoop photos' parameters' None calls' s')
              end
          end
      end
  end.

(** [logger.error(error)]: besides writing the log, the logger may mark an
    object it is given by assigning its [level] property; it leaves a
    primitive as it is.  The result is the state of [error] after the call.
    (A property assigned to an array is neither read nor sent by any later
    step, and an array is left as it is here.) *)
Definition logger_error (error : value) : value :=
  match error with
  | VObj o =>
      match loggedLevel config error with
      | Some label => VObj (set_field "level" label o)
      | None => error
      end
  | _ => error
  end.

(** The [catch (err)] block shared by both fetchers:
    [error = err.error.error ||
       {name: err.name, code: err.statusCode, message: err.message};
     logger.error(error);] *)
Definition catch_error (err : value) : result value :=
  let! body := get_prop err "error" in
  let! nested := get_prop body "error" in
  let! error :=
    if truthy nested then Ok nested
    else
      let! name := get_prop err "name" in
      let! code := get_prop err "statusCode" in
      let! message := get_prop err "message" in
      Ok (VObj [("name", name); ("code", code); ("message", message)]) in
  Ok (logger_error error).

(** The object [{photos, parameters, error}] returned by libraryApiSearch. *)
Record SearchData : Type := mkSearchData {
  photos : list value;
  parameters : obj;
  error : value;
}.

(** A finished call of a fetcher: its completion (a throw is a rejected
    promise), the requests it made and the unread part of the script. *)
Record Fetched (A : Type) : Type := mkFetched {
  returned : result A;
  calls : list ApiCall;
  unread : script;
}.
#[global] Arguments mkFetched {A} _ _ _.
#[global] Arguments returned {A} _.
#[global] Arguments calls {A} _.
#[global] Arguments unread {A} _.

Definition libraryApiSearch (authToken : value) (parameters : obj) (s : script)
    : option (Fetched SearchData) :=
  let parameters := set_field "pageSize" (searchPageSize config) parameters in
  match search_loop authToken s [] parameters [] with
  | None => None
  | Some l =>
      let ret :=
        match loop_thrown l with
        | None => Ok (mkSearchData (loop_photos l) (loop_parameters l) VNull)
        | Some err =>
            let! error := catch_error err in
            Ok (mkSearchData (loop_photos l) (loop_parameters l) error)
        end in
      Some (mkFetched ret (loop_calls l) (loop_rest l))
  end.

(** *** libraryApiGetAlbums *)

(** The object [{albums, error}] returned by libraryApiGetAlbums. *)
Record AlbumData : Type := mkAlbumData {
  albums : list value;
  albums_error : value;
}.

(** [if (result && result.albums) { albums = albums.concat(result.albums.filter(x => !!x)) }] *)
Definition add_albums (albums : list value) (res : value) : result (list value) :=
  if truthy res then
    let! listed := get_prop res "albums" in
    if truthy listed then
      match listed with
      | VArr xs => Ok (albums ++ List.filter truthy xs)
      | _ => Throw (TypeError "result.albums.filter is not a function")
      end
    else Ok albums
  else Ok albums.

Record AlbumLoop : Type := mkAlbumLoop {
  aloop_albums : list value;
  aloop_thrown : option value;
  aloop_calls : list ApiCall;
  aloop_rest : script;
}.

(** The [do { .. } while (parameters.pageToken != null)] loop. *)
Fixpoint albums_loop (authToken : value) (s : script) (albums : list value)
    (parameters : obj) (calls : list ApiCall) : option AlbumLoop :=
  match s with
  | [] => None
  | completion :: s' =>
      let calls' := calls ++ [mkApiCall authToken parameters] in
      match completion with
      | Throw err => Some (mkAlbumLoop albums (Some err) calls' s')
      | Ok res =>
          match add_albums albums res with
          | Throw err => Some (mkAlbumLoop albums (Some err) calls' s')
          | Ok albums' =>
              match get_prop res "nextPageToken" with
              | Throw err => Some (mkAlbumLoop albums' (Some err) calls' s')
              | Ok token =>
                  let parameters' := set_field "pageToken" token parameters in
                  if negb (nullish token)
                  then albums_loop authToken s' albums' parameters' calls'
                  else Some (mkAlbumLoop albums' None calls' s')
              end
          end
      end
  end.

Definition libraryApiGetAlbums (authToken : value) (s : script)
    : option (Fetched AlbumData) :=
  let parameters := [("pageSize", albumPageSize config)] in
  match albums_loop authToken s [] parameters [] with
  | None => None
  | Some l =>
      let ret :=
        match aloop_thrown l with
        | None => Ok (mkAlbumData (aloop_albums l) VNull)
        | Some err =>
            let! error := catch_error err in
            Ok (mkAlbumData (aloop_albums l) error)
        end in
      Some (mkFetched ret (aloop_calls l) (aloop_rest l))
  end.

(** ** The persisted stores *)

(** A cached value with the instant (in milliseconds) at which it lapses. *)
Record Entry (T : Type) : Type := mkEntry {
  datum : T;
  expires : Z;
}.
#[global] Arguments mkEntry {T} _ _.
#[global] Arguments datum {T} _.
#[global] Arguments expires {T} _.

(** Modelled from the spec: the persistence library behind [persist.create]
    is not part of the sources.  A cache holds a single slot per key, by
    value.  [getItem] evaluates expiry when it reads and treats a lapsed
    entry as absent; nothing else removes it. *)
Definition getItem {T : Type} (now : Z) (key : string)
    (c : gmap string (Entry T)) : option T :=
  match c !! key with
  | Some e => if expires e <? now then None else Some (datum e)
  | None => None
  end.

(** Modelled from the spec: [setItemSync] of the persistence library, which
    is not part of the sources.  It overwrites the slot of the key and stamps
    it with [now + ttl]. *)
Definition setItem {T : Type} (ttl now : Z) (key : string) (v : T)
    (c : gmap string (Entry T)) : gmap string (Entry T) :=
  <[key := mkEntry v (now + ttl)]> c.

(** Modelled from the spec: [removeItem] of the persistence library, which is
    not part of the sources.  It drops the slot of the key. *)
Definition removeItem {T : Type} (key : string)
    (c : gmap string (Entry T)) : gmap string (Entry T) :=
  delete key c.

(** [ttl: 3300000,  // 55 minutes] *)
Definition mediaItemCache_ttl : Z := 3300000.
(** [ttl: 600000,  // 10 minutes] *)
Definition albumCache_ttl : Z := 600000.

(** What [storage] keeps for a user: [{parameters: searchParameter}]. *)
Record Stored : Type := mkStored {
  stored_parameters : obj;
}.

(** The three module-level stores.  [storage] is created without a ttl: its
    records never lapse, so reading it is a lookup and [setItemSync] an
    insertion. *)
Record Stores : Type := mkStores {
  mediaItemCache : gmap string (Entry (list value));
  albumCache : gmap string (Entry AlbumData);
  storage : gmap string Stored;
}.

Definition no_stores : Stores := mkStores ∅ ∅ ∅.

(** ** Requests and responses *)

(** An authenticated request: [req.user.profile.id], [req.user.token] and
    [req.body]. *)
Record Request : Type := mkRequest {
  userId : string;
  token : value;
  body : obj;
}.

(** [res.status(status).send(sent)] *)
Record Response : Type := mkResponse {
  status : value;
  sent : value;
}.

(** A finished run of a route handler: the stores it leaves, the response it
    sent (a throw is a rejected handler: nothing was sent) and the upstream
    requests it made. *)
Record Handled : Type := mkHandled {
  final : Stores;
  reply : result Response;
  requested : list ApiCall;
}.

(** [returnError(res, data)], on [data.error]. *)
Definition returnError (error : value) : result Response :=
  let! code := get_prop error "code" in
  let statusCode := js_or code (VNum 500) in
  Ok (mkResponse statusCode error).

(** [returnPhotos(res, userId, data, searchParameter)] *)
Definition returnPhotos (st : Stores) (now : Z) (userId : string)
    (data : SearchData) (searchParameter : obj) : Stores * result Response :=
  if truthy (error data) then (st, returnError (error data))
  else
    let searchParameter := delete_field "pageToken" searchParameter in
    let searchParameter := delete_field "pageSize" searchParameter in
    let st :=
      mkStores
        (setItem mediaItemCache_ttl now userId (photos data) (mediaItemCache st))
        (albumCache st) (storage st) in
    let st :=
      mkStores (mediaItemCache st) (albumCache st)
        (<[userId := mkStored searchParameter]> (storage st)) in
    (st, Ok (mkResponse (VNum 200)
               (VObj [("photos", VArr (photos data));
                      ("parameters", VObj searchParameter)]))).

(** The tail shared by the three photo routes:
    [const data = await libraryApiSearch(authToken, parameters);
     returnPhotos(res, userId, data, parameters);]
    The fetcher updates [parameters] in place, so the object the route passes
    on to [returnPhotos] is the one the fetcher returns in [data.parameters]. *)
Definition search_and_return (st : Stores) (now : Z) (req : Request)
    (params : obj) (s : script) : option Handled :=
  match libraryApiSearch (token req) params s with
  | None => None
  | Some f =>
      match returned f with
      | Throw e => Some (mkHandled st (Throw e) (calls f))
      | Ok data =>
          let '(st', r) := returnPhotos st now (userId req) data (parameters data) in
          Some (mkHandled st' r (calls f))
      end
  end.

(** *** POST /loadFromSearch *)

(** [constructDate(year, month, day)] *)
Definition constructDate (year month day : value) : obj :=
  let date := [] in
  let date := if truthy year then set_field "year" year date else date in
  let date := if truthy month then set_field "month" month date else date in
  let date := if truthy day then set_field "day" day date else date in
  date.

(** [v == word] for the two literals the route compares with, ['exact'] and
    ['range']: a string equals it when it is the same string; an array is
    first joined into a string, which is the word only for a one-element
    array whose element converts to the word; numbers, booleans, [null],
    [undefined] and plain objects never equal it. *)
Fixpoint loosely_equals (word : string) (v : value) : bool :=
  match v with
  | VStr s => String.eqb s word
  | VArr [x] => loosely_equals word x
  | _ => false
  end.

Definition search_filters (body : obj) : obj :=
  let contentFilter := [] in
  let contentFilter :=
    if truthy (get_field "includedCategories" body)
    then set_field "includedContentCategories"
           (VArr [get_field "includedCategories" body]) contentFilter
    else contentFilter in
  let contentFilter :=
    if truthy (get_field "excludedCategories" body)
    then set_field "excludedContentCategories"
           (VArr [get_field "excludedCategories" body]) contentFilter
    else contentFilter in
  let filters :=
    [("contentFilter", VObj contentFilter);
     ("mediaTypeFilter", VObj [("mediaTypes", VArr [VStr "PHOTO"])])] in
  if loosely_equals "exact" (get_field "dateFilter" body) then
    set_field "dateFilter"
      (VObj [("dates",
              VObj (constructDate (get_field "exactYear" body)
                      (get_field "exactMonth" body)
                      (get_field "exactDay" body)))])
      filters
  else if loosely_equals "range" (get_field "dateFilter" body) then
    set_field "dateFilter"
      (VObj [("ranges",
              VArr [VObj
                [("startDate",
                  VObj (constructDate (get_field "startYear" body)
                          (get_field "startMonth" body)
                          (get_field "startDay" body)));
                 ("endDate",
                  VObj (constructDate (get_field "endYear" body)
                          (get_field "endMonth" body)
                          (get_field "endDay" body)))]])])
      filters
  else filters.

Definition loadFromSearch (st : Stores) (now : Z) (req : Request) (s : script)
    : option Handled :=
  let filters := search_filters (body req) in
  let parameters := [("filters", VObj filters)] in
  search_and_return st now req parameters s.

(** *** POST /loadFromAlbum *)

Definition loadFromAlbum (st : Stores) (now : Z) (req : Request) (s : script)
    : option Handled :=
  let albumId := get_field "albumId" (body req) in
  let parameters := [("albumId", albumId)] in
  search_and_return st now req parameters s.

(** *** GET /getAlbums *)

(** The body sent for [{albums, error}]. *)
Definition album_body (data : AlbumData) : value :=
  VObj [("albums", VArr (albums data)); ("error", albums_error data)].

Definition getAlbums (st : Stores) (now : Z) (req : Request) (s : script)
    : option Handled :=
  let cachedAlbums := getItem now (userId req) (albumCache st) in
  match cachedAlbums with
  | Some cached => Some (mkHandled st (Ok (mkResponse (VNum 200) (album_body cached))) [])
  | None =>
      match libraryApiGetAlbums (token req) s with
      | None => None
      | Some f =>
          match returned f with
          | Throw e => Some (mkHandled st (Throw e) (calls f))
          | Ok data =>
              if truthy (albums_error data) then
                match returnError (albums_error data) with
                | Throw e => Some (mkHandled st (Throw e) (calls f))
                | Ok r =>
                    let st' :=
                      mkStores (mediaItemCache st)
                        (removeItem (userId req) (albumCache st)) (storage st) in
                    Some (mkHandled st' (Ok r) (calls f))
                end
              else
                let st' :=
                  mkStores (mediaItemCache st)
                    (setItem albumCache_ttl now (userId req) data (albumCache st))
                    (storage st) in
                Some (mkHandled st' (Ok (mkResponse (VNum 200) (album_body data)))
                        (calls f))
          end
      end
  end.

(** *** GET /getQueue *)

Definition getQueue (st : Stores) (now : Z) (req : Request) (s : script)
    : option Handled :=
  let cachedPhotos := getItem now (userId req) (mediaItemCache st) in
  let stored := storage st !! userId req in
  match cachedPhotos with
  | Some cached =>
      (* an array is truthy; [stored.parameters] is read unguarded *)
      match stored with
      | None =>
          Some (mkHandled st
                  (Throw (TypeError "Cannot read properties of undefined")) [])
      | Some record =>
          Some (mkHandled st
                  (Ok (mkResponse (VNum 200)
                         (VObj [("photos", VArr cached);
                                ("parameters", VObj (stored_parameters record))])))
                  [])
      end
  | None =>
      match stored with
      | Some record =>
          (* [stored && stored.parameters]: both are objects *)
          search_and_return st now req (stored_parameters record) s
      | None => Some (mkHandled st (Ok (mkResponse (VNum 200) (VObj []))) [])
      end
  end.


(** * Vocabulary of the statements *)

(** ** Pages of a search *)

(** What the search loop adds for a page it gets through. *)
Definition page_items (res : value) : list value :=
  match search_items res with
  | Ok items => items
  | Throw _ => []
  end.

(** [v.p], read as [undefined] where the read would throw. *)
Definition field_of (v : value) (p : string) : value :=
  match get_prop v p with
  | Ok x => x
  | Throw _ => VUndefined
  end.

(** The continuation token a page carries ([undefined] when it has none). *)
Definition page_token (res : value) : value := field_of res "nextPageToken".

(** A response the search loop body processes without a throw: it is not
    [null] or [undefined], its [mediaItems] (when truthy) is an array, and
    every truthy [mimeType] in it is a string. *)
Definition search_page_ok (res : value) : bool :=
  negb (nullish res) &&
  match search_items res with Ok _ => true | Throw _ => false end.

(** Items gathered from a run of pages, in order. *)
Definition gathered (pages : list value) : list value :=
  flat_map page_items pages.

Definition retoken (t : value) (p : obj) : obj := set_field "pageToken" t p.

(** The loop condition after [count] photos and a page [res]:
    [photos.length < config.photosToLoad && parameters.pageToken != null]. *)
Definition wants_more (count : nat) (res : value) : bool :=
  (Z.of_nat count <? photosToLoad config) && negb (nullish (page_token res)).

(** Every page of the run is processed and leaves the loop condition true;
    [count] photos were held before the first of them. *)
Fixpoint all_continue (count : nat) (pages : list value) : bool :=
  match pages with
  | [] => true
  | res :: pages' =>
      let count' := (count + length (page_items res))%nat in
      search_page_ok res && wants_more count' res && all_continue count' pages'
  end.

(** The requests sent while a run of continuing pages is read, starting from
    the parameters [p], and the parameters held afterwards. *)
Fixpoint requests_for (authToken : value) (p : obj) (pages : list value)
    : list ApiCall :=
  match pages with
  | [] => []
  | res :: pages' =>
      mkApiCall authToken p
        :: requests_for authToken (retoken (page_token res) p) pages'
  end.

Definition turn_pages (p : obj) (pages : list value) : obj :=
  fold_left (fun q res => retoken (page_token res) q) pages p.

(** An item of the result list that is an image: its [mimeType] is a string
    that starts with [image/]. *)
Definition image_item (x : value) : Prop :=
  exists s, get_prop x "mimeType" = Ok (VStr s) /\ String.prefix "image/" s = true.

(** ** Pages of an album listing *)

(** The albums one page contributes: its non-empty entries. *)
Definition page_albums (res : value) : list value :=
  match add_albums [] res with
  | Ok xs => xs
  | Throw _ => []
  end.

Definition album_page_ok (res : value) : bool :=
  negb (nullish res) &&
  match add_albums [] res with Ok _ => true | Throw _ => false end.

Definition listed (pages : list value) : list value :=
  flat_map page_albums pages.

(** Every page of the run is processed and carries a continuation token. *)
Definition all_have_token (pages : list value) : bool :=
  forallb (fun res => album_page_ok res && negb (nullish (page_token res))) pages.

(** ** Failures *)

(** The exception carries an [error] property that is neither [null] nor
    [undefined]: the parsed response body of an HTTP failure, or the cause of
    a transport failure. *)
Definition has_error_body (err : value) : bool :=
  match get_prop err "error" with
  | Ok b => negb (nullish b)
  | Throw _ => false
  end.

(** The error payload nested in the response body, [err.error.error]. *)
Definition nested_error (err : value) : value :=
  field_of (field_of err "error") "error".

(** The error built from the exception's own fields. *)
Definition exception_error (err : value) : value :=
  VObj [("name", field_of err "name");
        ("code", field_of err "statusCode");
        ("message", field_of err "message")].

(** An error that carries a numeric code, a name and a message. *)
Definition structured_error (e : value) : bool :=
  match field_of e "code", field_of e "name", field_of e "message" with
  | VNum _, VStr _, VStr _ => true
  | _, _, _ => false
  end.

(** A body of the shape [{error: {code, name, message}}]. *)
Definition error_envelope (b : value) : bool :=
  match b with
  | VObj o =>
      match lookup_field "error" o with
      | Some (VObj e) =>
          has_field "code" e && has_field "name" e && has_field "message" e
      | _ => false
      end
  | _ => false
  end.

(** ** Stores *)

(** Every user with a slot in the media-item cache has a record in
    [storage]. *)
Definition cache_backed (st : Stores) : Prop :=
  forall u, is_Some (mediaItemCache st !! u) -> is_Some (storage st !! u).

(** No record of [storage] holds a [pageToken] or a [pageSize]. *)
Definition query_store_clean (st : Stores) : Prop :=
  forall u record, storage st !! u = Some record ->
    has_field "pageToken" (stored_parameters record) = false
    /\ has_field "pageSize" (stored_parameters record) = false.

(** The stores the server can be in: it starts with none, and every change
    is the run of one of the four data routes. *)
Inductive reachable : Stores -> Prop :=
| reachable_start : reachable no_stores
| reachable_loadFromSearch st now req s h :
    reachable st -> loadFromSearch st now req s = Some h -> reachable (final h)
| reachable_loadFromAlbum st now req s h :
    reachable st -> loadFromAlbum st now req s = Some h -> reachable (final h)
| reachable_getAlbums st now req s h :
    reachable st -> getAlbums st now req s = Some h -> reachable (final h)
| reachable_getQueue st now req s h :
    reachable st -> getQueue st now req s = Some h -> reachable (final h).

End PhotoFrame.

(** ** Sample data *)

(** A logger that marks an object that has a message with
    [level: 'error']. *)
Definition marks_messages (e : value) : option value :=
  if truthy (field_of e "message") then Some (VStr "error") else None.

(** A configuration to run the statements with: pages of 100 media items
    and 50 albums, at least 150 photos wanted, and that logger. *)
Definition sample_config : Config :=
  mkConfig (VNum 100) (VNum 50) 150 marks_messages.

Definition image (id : Z) : value :=
  VObj [("id", VNum id); ("mimeType", VStr "image/jpeg")].

Definition video (id : Z) : value :=
  VObj [("id", VNum id); ("mimeType", VStr "video/mp4")].

Definition search_page (items : list value) (next : value) : value :=
  VObj [("mediaItems", VArr items); ("nextPageToken", next)].

Definition albums_page (entries : list value) (next : value) : value :=
  VObj [("albums", VArr entries); ("nextPageToken", next)].

Definition album (id : string) : value :=
  VObj [("id", VStr id); ("title", VStr "Holidays")].

(** The rejection of a request answered 401 with the API's error body. *)
Definition unauthenticated : value :=
  VObj [("name", VStr "StatusCodeError");
        ("statusCode", VNum 401);
        ("message", VStr "401 - UNAUTHENTICATED");
        ("error",
         VObj [("error",
                VObj [("code", VNum 401);
                      ("message", VStr "Request had invalid authentication credentials.");
                      ("status", VStr "UNAUTHENTICATED")])])].

(** The rejection of a request answered 401 with a body whose error payload
    carries another code. *)
Definition mismatched_401 : value :=
  VObj [("name", VStr "StatusCodeError");
        ("statusCode", VNum 401);
        ("message", VStr "401 - PERMISSION_DENIED");
        ("error",
         VObj [("error",
                VObj [("code", VNum 403);
                      ("message", VStr "The caller does not have permission");
                      ("status", VStr "PERMISSION_DENIED")])])].

(** The rejection of a request answered 401 with an empty body: the
    exception has no [error] property. *)
Definition bare_401 : value :=
  VObj [("name", VStr "StatusCodeError");
        ("statusCode", VNum 401);
        ("message", VStr "401 - undefined")].

(** The rejection of a request that never reached the API. *)
Definition connection_refused : value :=
  VObj [("name", VStr "RequestError");
        ("message", VStr "Error: connect ECONNREFUSED");
        ("error", VObj [("code", VStr "ECONNREFUSED"); ("syscall", VStr "connect")])].

Definition alice : Request :=
  mkRequest "alice" (VStr "ya29.token") [("albumId", VStr "abc")].

(** A first page with an image, an empty entry and a video, and a last page
    with one image and no token. *)
Definition first_page : value :=
  search_page [image 1; VNull; video 2] (VStr "t1").

Definition last_page : value := search_page [image 3] VUndefined.

(** A configuration that asks for two photos only. *)
Definition two_photos : Config :=
  mkConfig (VNum 100) (VNum 50) 2 marks_messages.

(** The stores after alice loaded album [abc] at time 0 and got one image. *)
Definition alice_stores : Stores :=
  mkStores (setItem mediaItemCache_ttl 0 "alice" [image 1] ∅) ∅
    (<["alice" := mkStored [("albumId", VStr "abc")]]> ∅).

(** Stores in which alice has cached photos and no stored record. *)
Definition orphan_stores : Stores :=
  mkStores (setItem mediaItemCache_ttl 0 "alice" [image 1] ∅) ∅ ∅.

(** Stores in which alice has a cached album listing. *)
Definition listed_stores : Stores :=
  mkStores ∅
    (setItem albumCache_ttl 0 "alice" (mkAlbumData [album "a1"] VNull) ∅) ∅.

(** ** The session middleware (res.locals) *)

(** [photos[0].value] on a truthy [photos]: the first element of an array
    (reading past the end gives [undefined], whose [value] cannot be read),
    the property ["0"] of an object, a one-character string for a string
    (which has no [value]), nothing for a number or a boolean. *)
Definition first_photo_value (photos : value) : result value :=
  match photos with
  | VArr (x :: _) => get_prop x "value"
  | VObj o => get_prop (get_field "0" o) "value"
  | VStr (String _ _) => Ok VUndefined
  | VArr [] | VStr EmptyString | VBool _ | VNum _ | VUndefined | VNull =>
      Throw (TypeError "Cannot read properties of undefined")
  end.

(** The middleware that sets [res.locals.name] and [res.locals.avatarUrl]
    from [req.user]; it returns the pair of them. *)
Definition user_locals (user : value) : result (value * value) :=
  let profile := if truthy user then field_of user "profile" else user in
  let name :=
    if truthy profile && truthy (field_of profile "name")
    then js_or (field_of (field_of profile "name") "givenName")
               (field_of profile "displayName")
    else VStr "-" in
  if truthy profile && truthy (field_of profile "photos")
  then
    let! avatarUrl := first_photo_value (field_of profile "photos") in
    Ok (name, avatarUrl)
  else Ok (name, VStr "").

(** ** What the upstream sent *)

(** The media items of a response as the upstream sent them. *)
Definition raw_items (res : value) : list value :=
  match field_of res "mediaItems" with
  | VArr xs => xs
  | _ => []
  end.

(** All media items of the responses of a script, in order. *)
Definition upstream_items (s : list (result value)) : list value :=
  flat_map (fun c => match c with Ok res => raw_items res | Throw _ => [] end) s.

(** A user with a Google profile, and the same user without a picture list
    entry. *)
Definition bob_user : value :=
  VObj [("profile",
         VObj [("displayName", VStr "Bob B");
               ("name", VObj [("givenName", VStr "Bob")]);
               ("photos", VArr [VObj [("value", VStr "https://pic/bob")]])]);
        ("token", VStr "ya29.bob")].

Definition search_form : obj :=
  [("includedCategories", VStr "LANDSCAPES");
   ("dateFilter", VStr "exact");
   ("exactYear", VStr "2018"); ("exactMonth", VStr ""); ("exactDay", VStr "")].

Definition carol : Request := mkRequest "carol" (VStr "ya29.carol") search_form.
(** * Properties *)

Section Properties.

Variable config : Config.


(** ** Field lists *)

Lemma set_field_set_field p v u (o : obj) :
  set_field p v (set_field p u o) = set_field p v o.
Proof.
  induction o as [|[k w] o IH]; simpl.
  - now rewrite String.eqb_refl.
  - destruct (String.eqb k p) eqn:E; simpl; rewrite E; [reflexivity|].
    now rewrite IH.
Qed.

Lemma lookup_set_field_eq p v (o : obj) :
  lookup_field p (set_field p v o) = Some v.
Proof.
  induction o as [|[k w] o IH]; simpl.
  - now rewrite String.eqb_refl.
  - destruct (String.eqb k p) eqn:E; simpl; now rewrite E.
Qed.

Lemma lookup_set_field_ne p q v (o : obj) :
  p <> q -> lookup_field p (set_field q v o) = lookup_field p o.
Proof.
  intros Hne. induction o as [|[k w] o IH]; simpl.
  - destruct (String.eqb_spec q p); [congruence | reflexivity].
  - destruct (String.eqb_spec k q) as [->|Hk]; simpl.
    + destruct (String.eqb_spec q p); [congruence | reflexivity].
    + now rewrite IH.
Qed.

Lemma lookup_delete_field_eq p (o : obj) :
  lookup_field p (delete_field p o) = None.
Proof.
  induction o as [|[k w] o IH]; simpl; [reflexivity|].
  destruct (String.eqb k p) eqn:E; simpl; [assumption|].
  now rewrite E.
Qed.

Lemma lookup_delete_field_ne p q (o : obj) :
  p <> q -> lookup_field p (delete_field q o) = lookup_field p o.
Proof.
  intros Hne. induction o as [|[k w] o IH]; simpl; [reflexivity|].
  destruct (String.eqb_spec k q) as [->|Hk]; simpl.
  - rewrite IH. destruct (String.eqb_spec q p); [congruence | reflexivity].
  - now rewrite IH.
Qed.

Lemma retoken_retoken t u (o : obj) : retoken t (retoken u o) = retoken t o.
Proof. apply set_field_set_field. Qed.

(** ** The search loop, page by page *)

Lemma search_page_ok_items res :
  search_page_ok res = true -> search_items res = Ok (page_items res).
Proof.
  unfold search_page_ok, page_items. intros H.
  apply andb_true_iff in H as [_ H].
  now destruct (search_items res).
Qed.

Lemma search_page_ok_token res :
  search_page_ok res = true -> get_prop res "nextPageToken" = Ok (page_token res).
Proof.
  unfold search_page_ok, page_token. intros H.
  apply andb_true_iff in H as [H _].
  now destruct res.
Qed.


Lemma turn_pages_snoc p pages res :
  turn_pages p (pages ++ [res]) = retoken (page_token res) p.
Proof.
  unfold turn_pages. rewrite fold_left_app. simpl.
  revert p. induction pages as [|r pages IH]; intros p; simpl; [reflexivity|].
  rewrite IH. apply retoken_retoken.
Qed.

Lemma requests_for_snoc authToken p pages res :
  requests_for authToken p (pages ++ [res]) =
  mkApiCall authToken p
    :: map (fun r => mkApiCall authToken (retoken (page_token r) p)) pages.
Proof.
  revert p. induction pages as [|r pages IH]; intros p; simpl; [reflexivity|].
  f_equal. rewrite IH. simpl. f_equal.
  apply map_ext. intros a. now rewrite retoken_retoken.
Qed.

Lemma requests_for_app authToken p pages more :
  requests_for authToken p (pages ++ more) =
  requests_for authToken p pages
    ++ requests_for authToken (turn_pages p pages) more.
Proof.
  revert p. induction pages as [|r pages IH]; intros p; simpl; [reflexivity|].
  f_equal. apply IH.
Qed.

Lemma search_loop_continue authToken pages : forall s photos p calls,
  all_continue config (length photos) pages = true ->
  search_loop config authToken (map Ok pages ++ s) photos p calls =
  search_loop config authToken s (photos ++ gathered pages)
    (turn_pages p pages) (calls ++ requests_for authToken p pages).
Proof.
  induction pages as [|res pages IH]; intros s photos p calls Hc.
  - simpl. now rewrite !app_nil_r.
  - simpl in Hc. apply andb_true_iff in Hc as [Hc Hrest].
    apply andb_true_iff in Hc as [Hok Hmore].
    simpl. rewrite (search_page_ok_items _ Hok), (search_page_ok_token _ Hok).
    unfold wants_more in Hmore. rewrite length_app, Hmore.
    rewrite IH by (now rewrite length_app).
    unfold gathered. simpl. now rewrite <- !app_assoc.
Qed.

Lemma search_loop_stop authToken res s photos p calls :
  search_page_ok res = true ->
  wants_more config (length photos + length (page_items res)) res = false ->
  search_loop config authToken (Ok res :: s) photos p calls =
  Some (mkSearchLoop (photos ++ page_items res) (retoken (page_token res) p)
          None (calls ++ [mkApiCall authToken p]) s).
Proof.
  intros Hok Hstop. simpl.
  rewrite (search_page_ok_items _ Hok), (search_page_ok_token _ Hok).
  unfold wants_more in Hstop. now rewrite length_app, Hstop.
Qed.

Lemma search_loop_caught authToken err s photos p calls :
  search_loop config authToken (Throw err :: s) photos p calls =
  Some (mkSearchLoop photos p (Some err) (calls ++ [mkApiCall authToken p]) s).
Proof. reflexivity. Qed.

Lemma search_loop_starved authToken pages : forall photos p calls,
  all_continue config (length photos) pages = true ->
  search_loop config authToken (map Ok pages) photos p calls = None.
Proof.
  intros photos p calls Hc.
  rewrite <- (app_nil_r (map Ok pages)).
  now rewrite search_loop_continue.
Qed.

Lemma wants_more_false count res :
  wants_more config count res = false <->
  (photosToLoad config <= Z.of_nat count \/ nullish (page_token res) = true).
Proof.
  unfold wants_more. rewrite andb_false_iff, Z.ltb_ge, negb_false_iff.
  reflexivity.
Qed.

(** An invariant rule for the loop: a property of the photos held, the
    parameters and the requests sent that survives sending a request,
    appending the items of a page and replacing the token holds of whatever
    state the [try] block is left in. *)
Lemma search_loop_invariant authToken
    (I : list value -> obj -> list ApiCall -> Prop) :
  (forall held p sent,
     I held p sent -> I held p (sent ++ [mkApiCall authToken p])) ->
  (forall held p sent res items,
     I held p sent -> search_items res = Ok items -> I (held ++ items) p sent) ->
  (forall held p sent tok, I held p sent -> I held (retoken tok p) sent) ->
  forall s held p sent l,
    I held p sent ->
    search_loop config authToken s held p sent = Some l ->
    I (loop_photos l) (loop_parameters l) (loop_calls l).
Proof.
  intros Hsend Hitems Htoken.
  induction s as [|c s IH]; intros held p sent l HI H; [discriminate|].
  simpl in H. apply Hsend in HI.
  destruct c as [res|err]; [|now inversion H; subst].
  destruct (search_items res) as [items|err] eqn:Hi; [|now inversion H; subst].
  apply (Hitems _ _ _ _ _) with (2 := Hi) in HI.
  destruct (get_prop res "nextPageToken") as [tok|err];
    [|now inversion H; subst].
  apply (Htoken _ _ _ tok) in HI.
  destruct (_ && _); [exact (IH _ _ _ _ HI H)|].
  now inversion H; subst.
Qed.

Lemma search_loop_calls authToken s : forall photos p calls l,
  search_loop config authToken s photos p calls = Some l ->
  (length calls < length (loop_calls l))%nat.
Proof.
  induction s as [|c s IH]; intros photos p calls l H; [discriminate|].
  simpl in H.
  assert (Hlen : (length calls < length (calls ++ [mkApiCall authToken p]))%nat)
    by (rewrite length_app; simpl; lia).
  destruct c as [res|err].
  - destruct (search_items res) as [items|err].
    + destruct (get_prop res "nextPageToken") as [tok|err].
      * destruct (_ && _).
        -- apply IH in H. lia.
        -- now inversion H; subst.
      * now inversion H; subst.
    + now inversion H; subst.
  - now inversion H; subst.
Qed.

Lemma search_loop_last_call authToken pages last rest :
  forall photos p calls l,
  Forall (fun r => search_page_ok r = true) (pages ++ [last]) ->
  search_loop config authToken (map Ok pages ++ Ok last :: rest) photos p calls
    = Some l ->
  length (loop_calls l) = (length calls + S (length pages))%nat ->
  all_continue config (length photos) pages = true
  /\ wants_more config (length photos + length (gathered pages)
                 + length (page_items last)) last = false.
Proof.
  induction pages as [|r pages IH]; intros photos p calls l Hok H Hn.
  - simpl in *. apply Forall_inv in Hok.
    rewrite (search_page_ok_items _ Hok), (search_page_ok_token _ Hok) in H.
    rewrite length_app in H. split; [reflexivity|].
    rewrite Nat.add_0_r. unfold wants_more.
    destruct (_ && _); [|reflexivity].
    apply search_loop_calls in H. rewrite length_app in H. simpl in H. lia.
  - simpl in Hok. inversion Hok as [|? ? Hr Hok']; subst.
    simpl in H.
    rewrite (search_page_ok_items _ Hr), (search_page_ok_token _ Hr) in H.
    rewrite length_app in H. simpl. rewrite Hr. fold (wants_more config (length photos + length (page_items r)) r) in H.
    destruct (wants_more config _ r) eqn:Hw.
    + apply IH in H; [|assumption|rewrite length_app; simpl in *; lia].
      rewrite length_app in H. destruct H as [H1 H2]. split; [exact H1|].
      unfold gathered in *. simpl. rewrite length_app.
      now rewrite !Nat.add_assoc in *.
    + inversion H; subst. simpl in Hn. rewrite length_app in Hn.
      simpl in Hn. lia.
Qed.

(** C1.  The media-item fetcher, over a script of well-formed responses:
    it ends with the response [last], after exactly [length pages + 1] remote
    calls, if and only if every earlier response left fewer than
    [config.photosToLoad] photos gathered and carried a continuation token,
    while [last] brought the count to the minimum or carried no token.  When
    it does, it returns the normalized items of all those pages in order, no
    error, and the parameters with [pageToken] replaced by the token of
    [last]; the first call carried the parameters with the page size, and
    each later call the token of the response before it.  A response without
    a token therefore ends the loop whatever the minimum is. *)
Theorem libraryApiSearch_stops_exactly authToken params pages last rest :
  Forall (fun r => search_page_ok r = true) (pages ++ [last]) ->
  let p0 := set_field "pageSize" (searchPageSize config) params in
  let stops :=
    all_continue config 0 pages = true
    /\ (photosToLoad config <= Z.of_nat (length (gathered (pages ++ [last])))
        \/ nullish (page_token last) = true) in
  ((exists f,
      libraryApiSearch config authToken params (map Ok pages ++ Ok last :: rest)
        = Some f
      /\ length (calls f) = S (length pages))
   <-> stops)
  /\ (stops ->
      libraryApiSearch config authToken params (map Ok pages ++ Ok last :: rest)
      = Some (mkFetched
                (Ok (mkSearchData (gathered (pages ++ [last]))
                       (retoken (page_token last) p0) VNull))
                (mkApiCall authToken p0
                   :: map (fun r => mkApiCall authToken
                                      (retoken (page_token r) p0)) pages)
                rest)).
Proof.
  intros Hok p0 stops.
  assert (Hlen : length (gathered (pages ++ [last]))
                 = (length (gathered pages) + length (page_items last))%nat).
  { unfold gathered. rewrite flat_map_app, length_app. simpl.
    now rewrite app_nil_r. }
  assert (Hrun : stops ->
    libraryApiSearch config authToken params (map Ok pages ++ Ok last :: rest)
    = Some (mkFetched
              (Ok (mkSearchData (gathered (pages ++ [last]))
                     (retoken (page_token last) p0) VNull))
              (mkApiCall authToken p0
                 :: map (fun r => mkApiCall authToken
                                    (retoken (page_token r) p0)) pages)
              rest)).
  { intros [Hc Hstop]. unfold libraryApiSearch. fold p0.
    rewrite search_loop_continue by exact Hc.
    rewrite search_loop_stop.
    - simpl. f_equal. f_equal.
      + f_equal. f_equal.
        * unfold gathered. rewrite flat_map_app. simpl. now rewrite app_nil_r.
        * rewrite <- (turn_pages_snoc p0 pages last).
          unfold turn_pages. now rewrite fold_left_app.
      + rewrite <- (requests_for_snoc authToken p0 pages last).
        now rewrite requests_for_app.
    - apply Forall_app in Hok as [_ Hl]. now apply Forall_inv in Hl.
    - apply wants_more_false. simpl. now rewrite <- Hlen. }
  split; [|exact Hrun].
  split.
  - intros (f & Hf & Hn). unfold libraryApiSearch in Hf. fold p0 in Hf.
    destruct (search_loop _ _ _ _ _ _) as [l|] eqn:Hl; [|discriminate].
    inversion Hf; subst f; clear Hf. simpl in Hn.
    destruct (search_loop_last_call _ _ _ _ _ _ _ _ Hok Hl Hn) as [Hc Hs].
    split; [exact Hc|].
    apply wants_more_false in Hs. simpl in Hs. now rewrite Hlen.
  - intros Hs. eexists. split; [apply Hrun, Hs|]. simpl. now rewrite length_map.
Qed.

(** ** The album loop, page by page *)

Lemma add_albums_ok albums res :
  album_page_ok res = true -> add_albums albums res = Ok (albums ++ page_albums res).
Proof.
  unfold album_page_ok, page_albums, add_albums. intros H.
  apply andb_true_iff in H as [_ H].
  destruct (truthy res); [|now rewrite app_nil_r].
  destruct (get_prop res "albums") as [l|e]; simpl in *; [|discriminate].
  destruct (truthy l); [|now rewrite app_nil_r].
  destruct l; try discriminate. reflexivity.
Qed.

Lemma album_page_ok_token res :
  album_page_ok res = true -> get_prop res "nextPageToken" = Ok (page_token res).
Proof.
  unfold album_page_ok, page_token, field_of. intros H.
  apply andb_true_iff in H as [H _].
  now destruct res.
Qed.

Lemma albums_loop_continue authToken pages : forall s albums p calls,
  all_have_token pages = true ->
  albums_loop authToken (map Ok pages ++ s) albums p calls =
  albums_loop authToken s (albums ++ listed pages)
    (turn_pages p pages) (calls ++ requests_for authToken p pages).
Proof.
  induction pages as [|res pages IH]; intros s albums p calls Hc.
  - simpl. now rewrite !app_nil_r.
  - simpl in Hc. apply andb_true_iff in Hc as [Hc Hrest].
    apply andb_true_iff in Hc as [Hok Htok].
    simpl. rewrite (add_albums_ok _ _ Hok), (album_page_ok_token _ Hok), Htok.
    rewrite IH by assumption.
    unfold listed. simpl. now rewrite <- !app_assoc.
Qed.

Lemma albums_loop_stop authToken res s albums p calls :
  album_page_ok res = true ->
  nullish (page_token res) = true ->
  albums_loop authToken (Ok res :: s) albums p calls =
  Some (mkAlbumLoop (albums ++ page_albums res) None
          (calls ++ [mkApiCall authToken p]) s).
Proof.
  intros Hok Hstop. simpl.
  now rewrite (add_albums_ok _ _ Hok), (album_page_ok_token _ Hok), Hstop.
Qed.

(** ** The catch block *)

Lemma logger_error_truthy e : truthy (logger_error config e) = truthy e.
Proof.
  destruct e; try reflexivity. unfold logger_error.
  now destruct (loggedLevel config _).
Qed.

Lemma logger_error_field e p :
  p <> "level" -> field_of (logger_error config e) p = field_of e p.
Proof.
  intros Hp. destruct e as [| | | | | |o]; try reflexivity.
  unfold logger_error. destruct (loggedLevel config _); [|reflexivity].
  unfold field_of. simpl. unfold get_field.
  now rewrite lookup_set_field_ne.
Qed.

Lemma catch_error_handled err :
  has_error_body err = true ->
  catch_error config err
  = Ok (logger_error config (js_or (nested_error err) (exception_error err))).
Proof.
  unfold has_error_body, catch_error, nested_error, exception_error, js_or, field_of.
  destruct err as [| | | | | |o]; simpl; try discriminate.
  intros H. apply negb_true_iff in H.
  destruct (get_field "error" o); simpl in *; try discriminate;
    try reflexivity.
  now destruct (truthy (get_field "error" fields)).
Qed.

Lemma handled_error_truthy err :
  truthy (logger_error config (js_or (nested_error err) (exception_error err)))
  = true.
Proof.
  rewrite logger_error_truthy. unfold js_or.
  destruct (truthy (nested_error err)) eqn:E; [exact E|reflexivity].
Qed.

(** Without such a body the catch block itself throws, and the fetcher's
    promise is rejected with that TypeError. *)
Lemma catch_error_rethrows err :
  has_error_body err = false -> exists e, catch_error config err = Throw e.
Proof.
  unfold has_error_body, catch_error.
  destruct (get_prop err "error") as [b|e]; simpl; [|eauto].
  intros H. apply negb_false_iff in H.
  destruct b; try discriminate; simpl; eauto.
Qed.

Lemma returnError_truthy e :
  truthy e = true ->
  returnError e = Ok (mkResponse (js_or (field_of e "code") (VNum 500)) e).
Proof.
  unfold returnError, field_of. now destruct e.
Qed.

Lemma catch_error_truthy err e : catch_error config err = Ok e -> truthy e = true.
Proof.
  destruct (has_error_body err) eqn:Hb.
  - rewrite (catch_error_handled _ Hb). intros [= <-].
    apply handled_error_truthy.
  - destruct (catch_error_rethrows _ Hb) as [x ->]. discriminate.
Qed.

(** ** A failure partway through a search *)

Lemma libraryApiSearch_failure authToken params pages err rest :
  all_continue config 0 pages = true ->
  let p0 := set_field "pageSize" (searchPageSize config) params in
  libraryApiSearch config authToken params (map Ok pages ++ Throw err :: rest)
  = Some (mkFetched
            (and_then (catch_error config err) (fun e =>
               Ok (mkSearchData (gathered pages) (turn_pages p0 pages) e)))
            (requests_for authToken p0 pages
               ++ [mkApiCall authToken (turn_pages p0 pages)])
            rest).
Proof.
  intros Hc p0. unfold libraryApiSearch. fold p0.
  rewrite search_loop_continue by exact Hc.
  now rewrite search_loop_caught.
Qed.

Lemma returnPhotos_error st now user data sp :
  truthy (error data) = true ->
  returnPhotos st now user data sp
  = (st, Ok (mkResponse (js_or (field_of (error data) "code") (VNum 500))
               (error data))).
Proof.
  intros H. unfold returnPhotos. rewrite H. now rewrite returnError_truthy.
Qed.

(** C2 (as amended).  When the search call after the pages [pages] is
    rejected with an exception that carries a body, the fetcher returns the
    items of those pages together with an error: the payload nested in the
    body when that is truthy, with whatever code the payload has, or else an
    object whose code is the exception's status code; the logger may have
    marked an error object with a [level].  [returnPhotos] then answers with
    that error, under its code (500 without one), and leaves the media-item cache
    and [storage] as they were.  The stores are left alone by the route for
    every rejection whatsoever. *)
Theorem failed_page_leaves_stores st now user authToken params pages err rest :
  all_continue config 0 pages = true ->
  has_error_body err = true ->
  let p0 := set_field "pageSize" (searchPageSize config) params in
  let e :=
    logger_error config
      (if truthy (nested_error err) then nested_error err
       else VObj [("name", field_of err "name");
                  ("code", field_of err "statusCode");
                  ("message", field_of err "message")]) in
  let data := mkSearchData (gathered pages) (turn_pages p0 pages) e in
  libraryApiSearch config authToken params (map Ok pages ++ Throw err :: rest)
    = Some (mkFetched (Ok data)
              (requests_for authToken p0 pages
                 ++ [mkApiCall authToken (turn_pages p0 pages)])
              rest)
  /\ field_of e "code"
     = (if truthy (nested_error err) then field_of (nested_error err) "code"
        else field_of err "statusCode")
  /\ returnPhotos st now user data (parameters data)
     = (st, Ok (mkResponse (js_or (field_of e "code") (VNum 500)) e))
  /\ (forall req failure h,
        search_and_return config st now req params
          (map Ok pages ++ Throw failure :: rest) = Some h ->
        final h = st).
Proof.
  intros Hc Hb p0 e data.
  assert (He : e = logger_error config
                     (js_or (nested_error err) (exception_error err)))
    by reflexivity.
  split; [|split; [|split]].
  - rewrite libraryApiSearch_failure by exact Hc.
    now rewrite (catch_error_handled _ Hb).
  - unfold e. rewrite logger_error_field by discriminate.
    now destruct (truthy (nested_error err)).
  - apply returnPhotos_error. simpl. rewrite He. apply handled_error_truthy.
  - intros req failure h. unfold search_and_return.
    rewrite libraryApiSearch_failure by exact Hc. simpl.
    destruct (catch_error config failure) as [x|x] eqn:Hx; simpl.
    + rewrite returnPhotos_error by (exact (catch_error_truthy _ _ Hx)).
      now intros [= <-].
    + now intros [= <-].
Qed.

(** ** Error responses *)

(** C9 (as amended).  An error is answered with the error value itself as
    the body, not wrapped under an [error] key, and under the error's code as
    the status, or 500 when the error has no (truthy) code.  This is the
    answer of every route whose fetcher returned that error. *)
Theorem returnError_sends_error e :
  truthy e = true ->
  let answer :=
    mkResponse
      (if truthy (field_of e "code") then field_of e "code" else VNum 500) e in
  returnError e = Ok answer
  /\ (field_of e "code" = VUndefined -> answer = mkResponse (VNum 500) e)
  /\ (forall st now req params s f data,
        libraryApiSearch config (token req) params s = Some f ->
        returned f = Ok data ->
        error data = e ->
        search_and_return config st now req params s
        = Some (mkHandled st (Ok answer) (calls f)))
  /\ (forall st now req s f data,
        getItem now (userId req) (albumCache st) = None ->
        libraryApiGetAlbums config (token req) s = Some f ->
        returned f = Ok data ->
        albums_error data = e ->
        exists h,
          getAlbums config st now req s = Some h
          /\ reply h = Ok answer
          /\ requested h = calls f).
Proof.
  intros H answer. unfold answer.
  split; [exact (returnError_truthy _ H)|].
  split; [now intros ->|].
  split.
  - intros st now req params s f data Hf Hr <-.
    unfold search_and_return. rewrite Hf, Hr.
    now rewrite (returnPhotos_error _ _ _ _ _ H).
  - intros st now req s f data Hc Hf Hr <-.
    unfold getAlbums. rewrite Hc, Hf, Hr, H, (returnError_truthy _ H).
    eexists. split; [reflexivity|]. split; reflexivity.
Qed.

(** ** A failure partway through a listing *)

Lemma libraryApiGetAlbums_failure authToken pages err rest :
  all_have_token pages = true ->
  let p0 := [("pageSize", albumPageSize config)] in
  libraryApiGetAlbums config authToken (map Ok pages ++ Throw err :: rest)
  = Some (mkFetched
            (and_then (catch_error config err) (fun e =>
               Ok (mkAlbumData (listed pages) e)))
            (requests_for authToken p0 pages
               ++ [mkApiCall authToken (turn_pages p0 pages)])
            rest).
Proof.
  intros Hc p0. unfold libraryApiGetAlbums. fold p0.
  now rewrite albums_loop_continue by exact Hc.
Qed.

(** C6 (as amended).  A rejected request whose exception carries a body (the
    response body of an HTTP failure, the cause of a transport failure) is
    caught by both fetchers: they return the items gathered so far together
    with an error value, which is the payload nested in the body when that is
    truthy and otherwise [{name, code, message}] built from the exception's
    [name], [statusCode] and [message]; the code may thus be missing.  The
    logger may have marked an error object with a [level]; its other
    properties, the code among them, are as just said. *)
Theorem fetchers_return_failures_as_data authToken params pages listing err rest :
  has_error_body err = true ->
  all_continue config 0 pages = true ->
  all_have_token listing = true ->
  let e :=
    logger_error config
      (if truthy (nested_error err) then nested_error err
       else VObj [("name", field_of err "name");
                  ("code", field_of err "statusCode");
                  ("message", field_of err "message")]) in
  (exists p sent,
     libraryApiSearch config authToken params (map Ok pages ++ Throw err :: rest)
     = Some (mkFetched (Ok (mkSearchData (gathered pages) p e)) sent rest))
  /\ (exists sent,
     libraryApiGetAlbums config authToken (map Ok listing ++ Throw err :: rest)
     = Some (mkFetched (Ok (mkAlbumData (listed listing) e)) sent rest))
  /\ truthy e = true
  /\ (forall p, p <> "level" ->
      field_of e p
      = if truthy (nested_error err) then field_of (nested_error err) p
        else field_of (VObj [("name", field_of err "name");
                             ("code", field_of err "statusCode");
                             ("message", field_of err "message")]) p).
Proof.
  intros Hb Hc Ha e.
  assert (He : catch_error config err = Ok e) by (now apply catch_error_handled).
  split; [|split; [|split]].
  - do 2 eexists. rewrite libraryApiSearch_failure by exact Hc.
    rewrite He. reflexivity.
  - eexists. rewrite libraryApiGetAlbums_failure by exact Ha.
    rewrite He. reflexivity.
  - apply (handled_error_truthy err).
  - intros p Hp. unfold e. rewrite logger_error_field by exact Hp.
    now destruct (truthy (nested_error err)).
Qed.

(** ** The caches *)

Lemma getItem_setItem_live {T : Type} (c : gmap string (Entry T)) u (v : T)
    ttl set_at read_at :
  read_at <= set_at + ttl -> getItem read_at u (setItem ttl set_at u v c) = Some v.
Proof.
  intros H. unfold getItem, setItem. rewrite lookup_insert_eq. simpl.
  destruct (Z.ltb_spec (set_at + ttl) read_at); [lia | reflexivity].
Qed.

Lemma getItem_setItem_lapsed {T : Type} (c : gmap string (Entry T)) u (v : T)
    ttl set_at read_at :
  set_at + ttl < read_at -> getItem read_at u (setItem ttl set_at u v c) = None.
Proof.
  intros H. unfold getItem, setItem. rewrite lookup_insert_eq. simpl.
  destruct (Z.ltb_spec (set_at + ttl) read_at); [reflexivity | lia].
Qed.

Lemma getItem_setItem_ne {T : Type} (c : gmap string (Entry T)) u u' (v : T)
    ttl set_at read_at :
  u <> u' -> getItem read_at u' (setItem ttl set_at u v c) = getItem read_at u' c.
Proof.
  intros H. unfold getItem, setItem. now rewrite lookup_insert_ne.
Qed.

Lemma getItem_removeItem {T : Type} (c : gmap string (Entry T)) u now :
  getItem now u (removeItem u c) = None.
Proof. unfold getItem, removeItem. now rewrite lookup_delete_eq. Qed.

(** C7.  A value set in either cache is read back for the same user as long
    as the read comes before the cache's ttl has run out since the set
    (55 minutes for media items, 10 minutes for albums), and is absent once
    the ttl has run out.  Nothing sweeps the cache in between: the slot is
    still held, and [getItem] decides when it reads. *)
Theorem cache_round_trip st u items data set_at read_at :
  let media := setItem mediaItemCache_ttl set_at u items (mediaItemCache st) in
  let listing := setItem albumCache_ttl set_at u data (albumCache st) in
  mediaItemCache_ttl = 55 * 60 * 1000
  /\ albumCache_ttl = 10 * 60 * 1000
  /\ (read_at < set_at + 55 * 60 * 1000 -> getItem read_at u media = Some items)
  /\ (set_at + 55 * 60 * 1000 < read_at ->
      getItem read_at u media = None /\ is_Some (media !! u))
  /\ (read_at < set_at + 10 * 60 * 1000 -> getItem read_at u listing = Some data)
  /\ (set_at + 10 * 60 * 1000 < read_at ->
      getItem read_at u listing = None /\ is_Some (listing !! u)).
Proof.
  intros media listing. unfold media, listing.
  split; [reflexivity|]. split; [reflexivity|].
  repeat split.
  - intros H. apply getItem_setItem_live. unfold mediaItemCache_ttl. lia.
  - apply getItem_setItem_lapsed. unfold mediaItemCache_ttl. lia.
  - unfold setItem. rewrite lookup_insert_eq. eauto.
  - intros H. apply getItem_setItem_live. unfold albumCache_ttl. lia.
  - apply getItem_setItem_lapsed. unfold albumCache_ttl. lia.
  - unfold setItem. rewrite lookup_insert_eq. eauto.
Qed.


(** ** What [returnPhotos] stores *)

Lemma has_field_delete_eq p (o : obj) : has_field p (delete_field p o) = false.
Proof. unfold has_field. now rewrite lookup_delete_field_eq. Qed.

Lemma has_field_delete_other p q (o : obj) :
  has_field p o = false -> has_field p (delete_field q o) = false.
Proof.
  unfold has_field. destruct (String.eqb_spec p q) as [->|Hne].
  - now rewrite lookup_delete_field_eq.
  - now rewrite lookup_delete_field_ne.
Qed.

Lemma returnPhotos_success st now user data sp :
  truthy (error data) = false ->
  let kept := delete_field "pageSize" (delete_field "pageToken" sp) in
  returnPhotos st now user data sp
  = (mkStores
       (setItem mediaItemCache_ttl now user (photos data) (mediaItemCache st))
       (albumCache st)
       (<[user := mkStored kept]> (storage st)),
     Ok (mkResponse (VNum 200)
           (VObj [("photos", VArr (photos data)); ("parameters", VObj kept)]))).
Proof. intros H. unfold returnPhotos. now rewrite H. Qed.


(** ** Only images are gathered *)

Lemma is_image_true x : is_image x = Ok true -> image_item x.
Proof.
  unfold is_image, image_item.
  destruct (get_prop x "mimeType") as [m|e]; simpl; [|discriminate].
  destruct (truthy m); [|discriminate].
  destruct m; try discriminate.
  intros [= H]. eauto.
Qed.

Lemma filter_images_images xs : forall ys,
  filter_images xs = Ok ys -> Forall image_item ys.
Proof.
  induction xs as [|x xs IH]; simpl; intros ys H.
  - injection H as <-. constructor.
  - destruct (is_image x) as [keep|e] eqn:Hx; simpl in H; [|discriminate].
    destruct (filter_images xs) as [rest|e]; simpl in H; [|discriminate].
    injection H as <-. destruct keep.
    + constructor; [now apply is_image_true | now apply IH].
    + now apply IH.
Qed.

Lemma search_items_images res items :
  search_items res = Ok items -> Forall image_item items.
Proof.
  unfold search_items. destruct (truthy res); [|intros [= <-]; constructor].
  destruct (get_prop res "mediaItems") as [l|e]; simpl; [|discriminate].
  destruct (truthy l); [|intros [= <-]; constructor].
  destruct l; try discriminate. apply filter_images_images.
Qed.

Lemma search_loop_images authToken s held p calls l :
  Forall image_item held ->
  search_loop config authToken s held p calls = Some l ->
  Forall image_item (loop_photos l).
Proof.
  apply (search_loop_invariant authToken
           (fun held _ _ => Forall image_item held)); try easy.
  intros held' _ _ res items Hh Hi. apply Forall_app. split; [exact Hh|].
  exact (search_items_images _ _ Hi).
Qed.

Lemma libraryApiSearch_images authToken params s f data :
  libraryApiSearch config authToken params s = Some f ->
  returned f = Ok data ->
  Forall image_item (photos data).
Proof.
  unfold libraryApiSearch.
  destruct (search_loop _ _ _ _ _ _) as [l|] eqn:Hl; [|discriminate].
  intros [= <-]. simpl.
  pose proof (search_loop_images _ _ _ _ _ _ (Forall_nil_2 _) Hl) as Himg.
  destruct (loop_thrown l) as [err|].
  - destruct (catch_error config err); simpl; [|discriminate].
    now intros [= <-].
  - now intros [= <-].
Qed.

Lemma search_loop_keeps_fields authToken s held p calls l k :
  k <> "pageToken" ->
  search_loop config authToken s held p calls = Some l ->
  lookup_field k (loop_parameters l) = lookup_field k p.
Proof.
  intros Hk.
  apply (search_loop_invariant authToken
           (fun _ q _ => lookup_field k q = lookup_field k p)); try easy.
  intros _ q _ tok <-. now apply lookup_set_field_ne.
Qed.

Lemma libraryApiSearch_keeps_fields authToken params s f data k :
  k <> "pageToken" -> k <> "pageSize" ->
  libraryApiSearch config authToken params s = Some f ->
  returned f = Ok data ->
  lookup_field k (parameters data) = lookup_field k params.
Proof.
  intros Ht Hs. unfold libraryApiSearch.
  destruct (search_loop _ _ _ _ _ _) as [l|] eqn:Hl; [|discriminate].
  intros [= <-]. simpl.
  pose proof (search_loop_keeps_fields _ _ _ _ _ _ _ Ht Hl) as Hk.
  rewrite lookup_set_field_ne in Hk by exact Hs.
  destruct (loop_thrown l) as [err|].
  - destruct (catch_error config err); simpl; [|discriminate].
    now intros [= <-].
  - now intros [= <-].
Qed.

(** C3 (as amended).  An album selection goes through the same fetcher as a
    filter search, image filter included.  A run of /loadFromAlbum ends in
    one of three ways: the handler is rejected, or it answers with an error
    and leaves the stores alone, or it answers 200 with a result list that is
    cached for the user and in which every item has an image MIME type:
    videos the upstream returns for the album are dropped. *)
Theorem loadFromAlbum_keeps_images_only st now req s h :
  loadFromAlbum config st now req s = Some h ->
  (exists e, reply h = Throw e /\ final h = st)
  \/ (exists e, reply h = Ok (mkResponse (js_or (field_of e "code") (VNum 500)) e)
                /\ truthy e = true /\ final h = st)
  \/ (exists items kept,
        reply h = Ok (mkResponse (VNum 200)
                        (VObj [("photos", VArr items); ("parameters", VObj kept)]))
        /\ Forall image_item items
        /\ getItem now (userId req) (mediaItemCache (final h)) = Some items
        /\ storage (final h) !! userId req = Some (mkStored kept)
        /\ lookup_field "albumId" kept = Some (get_field "albumId" (body req))).
Proof.
  unfold loadFromAlbum, search_and_return.
  destruct (libraryApiSearch _ _ _ _) as [f|] eqn:Hf; [|discriminate].
  destruct (returned f) as [data|e] eqn:Hr.
  - destruct (truthy (error data)) eqn:He.
    + rewrite (returnPhotos_error _ _ _ _ _ He). intros [= <-]. simpl.
      right. left. eauto.
    + rewrite (returnPhotos_success _ _ _ _ _ He). intros [= <-]. simpl.
      right. right. do 2 eexists. split; [reflexivity|].
      split; [exact (libraryApiSearch_images _ _ _ _ _ Hf Hr)|].
      split; [apply getItem_setItem_live; unfold mediaItemCache_ttl; lia|].
      split; [apply lookup_insert_eq|].
      rewrite !lookup_delete_field_ne by discriminate.
      rewrite (libraryApiSearch_keeps_fields _ _ _ _ _ "albumId"
                 ltac:(discriminate) ltac:(discriminate) Hf Hr).
      simpl. reflexivity.
  - intros [= <-]. simpl. left. eauto.
Qed.

(** ** Replaying a stored query *)

Lemma lookup_field_app p (a b : obj) :
  lookup_field p (a ++ b) =
  match lookup_field p a with Some v => Some v | None => lookup_field p b end.
Proof.
  induction a as [|[k w] a IH]; simpl; [reflexivity|].
  now destruct (String.eqb k p).
Qed.

Lemma set_field_absent p v (o : obj) :
  lookup_field p o = None -> set_field p v o = o ++ [(p, v)].
Proof.
  induction o as [|[k w] o IH]; simpl; [reflexivity|].
  destruct (String.eqb k p); [discriminate|].
  intros H. now rewrite IH.
Qed.

Lemma delete_field_absent p (o : obj) :
  lookup_field p o = None -> delete_field p o = o.
Proof.
  induction o as [|[k w] o IH]; simpl; [reflexivity|].
  destruct (String.eqb k p); [discriminate|].
  intros H. now rewrite IH.
Qed.

Lemma delete_field_app p (a b : obj) :
  delete_field p (a ++ b) = delete_field p a ++ delete_field p b.
Proof.
  induction a as [|[k w] a IH]; simpl; [reflexivity|].
  destruct (String.eqb k p); [exact IH|]. simpl. now rewrite IH.
Qed.

Lemma has_field_false p (o : obj) :
  has_field p o = false <-> lookup_field p o = None.
Proof. unfold has_field. destruct (lookup_field p o); split; congruence. Qed.

(** Setting the two page fields on parameters that have neither, and
    deleting them again, gives the parameters back. *)
Lemma strip_page_fields sz (o : obj) :
  has_field "pageToken" o = false -> has_field "pageSize" o = false ->
  let p0 := set_field "pageSize" sz o in
  delete_field "pageSize" (delete_field "pageToken" p0) = o
  /\ forall t,
       delete_field "pageSize" (delete_field "pageToken" (retoken t p0)) = o.
Proof.
  intros Ht Hs p0. apply has_field_false in Ht, Hs.
  assert (Hp0 : p0 = o ++ [("pageSize", sz)]) by (now apply set_field_absent).
  assert (Htok : lookup_field "pageToken" p0 = None).
  { rewrite Hp0, lookup_field_app, Ht. reflexivity. }
  split.
  - rewrite (delete_field_absent _ _ Htok), Hp0, delete_field_app.
    rewrite (delete_field_absent _ _ Hs). simpl. apply app_nil_r.
  - intros t. unfold retoken. rewrite (set_field_absent _ _ _ Htok).
    rewrite Hp0, !delete_field_app. simpl.
    rewrite (delete_field_absent _ _ Ht), (delete_field_absent _ _ Hs).
    now rewrite !app_nil_r.
Qed.

Lemma search_loop_parameters authToken s held p calls l :
  search_loop config authToken s held p calls = Some l ->
  loop_parameters l = p \/ exists t, loop_parameters l = retoken t p.
Proof.
  apply (search_loop_invariant authToken
           (fun _ q _ => q = p \/ exists t, q = retoken t p)); try easy.
  - intros _ q _ tok [->|[t ->]]; right; exists tok; [reflexivity|].
    apply retoken_retoken.
  - now left.
Qed.

Lemma libraryApiSearch_strip authToken params s f data :
  has_field "pageToken" params = false -> has_field "pageSize" params = false ->
  libraryApiSearch config authToken params s = Some f ->
  returned f = Ok data ->
  delete_field "pageSize" (delete_field "pageToken" (parameters data)) = params.
Proof.
  intros Ht Hs. unfold libraryApiSearch.
  destruct (search_loop _ _ _ _ _ _) as [l|] eqn:Hl; [|discriminate].
  intros [= <-]. simpl.
  destruct (strip_page_fields (searchPageSize config) _ Ht Hs) as [H0 H1].
  assert (Hgoal : delete_field "pageSize"
                    (delete_field "pageToken" (loop_parameters l)) = params).
  { destruct (search_loop_parameters _ _ _ _ _ _ Hl) as [->|[t ->]];
      [exact H0 | apply H1]. }
  destruct (loop_thrown l) as [err|].
  - destruct (catch_error config err); simpl; [|discriminate].
    now intros [= <-].
  - now intros [= <-].
Qed.

(** C4.  /getQueue, by what the media-item cache and [storage] hold for the
    user.  Cached photos and a stored record: the cached photos are sent with
    the stored parameters, nothing else happens.  No cached photos but a
    stored record: the stored parameters are submitted to the fetcher like a
    fresh selection, and when that succeeds the photos are cached, the record
    is stored again (unchanged, if it held no page fields) and both are sent.
    Neither: an empty object is sent with status 200 and no request is
    made. *)
Theorem getQueue_three_branches st now req s :
  let cached := getItem now (userId req) (mediaItemCache st) in
  let stored := storage st !! userId req in
  (forall items record,
     cached = Some items -> stored = Some record ->
     getQueue config st now req s
     = Some (mkHandled st
               (Ok (mkResponse (VNum 200)
                      (VObj [("photos", VArr items);
                             ("parameters", VObj (stored_parameters record))])))
               []))
  /\ (forall record,
        cached = None -> stored = Some record ->
        getQueue config st now req s
        = search_and_return config st now req (stored_parameters record) s
        /\ forall f data,
             libraryApiSearch config (token req) (stored_parameters record) s
               = Some f ->
             returned f = Ok data ->
             truthy (error data) = false ->
             exists h kept,
               getQueue config st now req s = Some h
               /\ requested h = calls f
               /\ reply h
                  = Ok (mkResponse (VNum 200)
                          (VObj [("photos", VArr (photos data));
                                 ("parameters", VObj kept)]))
               /\ getItem now (userId req) (mediaItemCache (final h))
                  = Some (photos data)
               /\ storage (final h) !! userId req = Some (mkStored kept)
               /\ (has_field "pageToken" (stored_parameters record) = false ->
                   has_field "pageSize" (stored_parameters record) = false ->
                   kept = stored_parameters record))
  /\ (cached = None -> stored = None ->
      getQueue config st now req s
      = Some (mkHandled st (Ok (mkResponse (VNum 200) (VObj []))) [])).
Proof.
  intros cached stored. unfold cached, stored, getQueue. split; [|split].
  - intros items record -> ->. reflexivity.
  - intros record -> ->. split; [reflexivity|].
    intros f data Hf Hr He. unfold search_and_return. rewrite Hf, Hr.
    rewrite (returnPhotos_success _ _ _ _ _ He). simpl.
    do 2 eexists. split; [reflexivity|]. simpl.
    split; [reflexivity|]. split; [reflexivity|].
    split; [apply getItem_setItem_live; unfold mediaItemCache_ttl; lia|].
    split; [apply lookup_insert_eq|].
    intros Ht Hs. exact (libraryApiSearch_strip _ _ _ _ _ Ht Hs Hf Hr).
  - intros -> ->. reflexivity.
Qed.

(** ** Listing the albums *)

Lemma libraryApiGetAlbums_complete authToken pages last rest :
  all_have_token pages = true ->
  album_page_ok last = true ->
  nullish (page_token last) = true ->
  let p0 := [("pageSize", albumPageSize config)] in
  libraryApiGetAlbums config authToken (map Ok pages ++ Ok last :: rest)
  = Some (mkFetched (Ok (mkAlbumData (listed (pages ++ [last])) VNull))
            (requests_for authToken p0 (pages ++ [last])) rest).
Proof.
  intros Hc Hok Hstop p0. unfold libraryApiGetAlbums. fold p0.
  rewrite albums_loop_continue by exact Hc.
  rewrite (albums_loop_stop _ _ _ _ _ _ Hok Hstop). simpl.
  f_equal. f_equal.
  - unfold listed. rewrite flat_map_app. simpl. now rewrite app_nil_r.
  - now rewrite requests_for_app.
Qed.

Lemma libraryApiGetAlbums_starved authToken pages :
  all_have_token pages = true ->
  libraryApiGetAlbums config authToken (map Ok pages) = None.
Proof.
  intros Hc. unfold libraryApiGetAlbums.
  rewrite <- (app_nil_r (map Ok pages)).
  now rewrite albums_loop_continue.
Qed.

Lemma requests_for_length authToken p pages :
  length (requests_for authToken p pages) = length pages.
Proof.
  revert p. induction pages as [|r pages IH]; intros p; simpl; [reflexivity|].
  now rewrite IH.
Qed.

(** /getAlbums, case by case.  With a cached listing for the user, that
    listing is sent and nothing else happens.  Without one, the albums
    endpoint is read page after page for as long as the pages carry a
    continuation token, however many albums have been gathered; when a page
    comes without a token, the non-empty entries of all pages, in order, are
    sent and cached for the user.  When a request fails with an exception
    that carries a body, the error is sent and the user's slot in the album
    cache is removed; when the exception carries none, the handler is
    rejected and the stores, that slot included, stay as they were. *)
Theorem getAlbums_lists_everything st now req :
  let cached := getItem now (userId req) (albumCache st) in
  (forall data s,
     cached = Some data ->
     getAlbums config st now req s
     = Some (mkHandled st (Ok (mkResponse (VNum 200) (album_body data))) []))
  /\ (forall pages last rest,
        cached = None ->
        all_have_token pages = true ->
        album_page_ok last = true ->
        nullish (page_token last) = true ->
        let data := mkAlbumData (listed (pages ++ [last])) VNull in
        exists h,
          getAlbums config st now req (map Ok pages ++ Ok last :: rest) = Some h
          /\ reply h = Ok (mkResponse (VNum 200) (album_body data))
          /\ length (requested h) = S (length pages)
          /\ getItem now (userId req) (albumCache (final h)) = Some data
          /\ mediaItemCache (final h) = mediaItemCache st
          /\ storage (final h) = storage st)
  /\ (forall pages,
        cached = None ->
        all_have_token pages = true ->
        getAlbums config st now req (map Ok pages) = None)
  /\ (forall entries next,
        page_albums (VObj [("albums", VArr entries); ("nextPageToken", next)])
        = List.filter truthy entries)
  /\ (forall pages err rest,
        cached = None ->
        all_have_token pages = true ->
        has_error_body err = true ->
        let e := logger_error config
                   (js_or (nested_error err) (exception_error err)) in
        exists h,
          getAlbums config st now req (map Ok pages ++ Throw err :: rest) = Some h
          /\ reply h = Ok (mkResponse (js_or (field_of e "code") (VNum 500)) e)
          /\ albumCache (final h) !! userId req = None)
  /\ (forall pages err rest,
        cached = None ->
        all_have_token pages = true ->
        has_error_body err = false ->
        exists h e,
          getAlbums config st now req (map Ok pages ++ Throw err :: rest) = Some h
          /\ reply h = Throw e
          /\ final h = st).
Proof.
  intros cached. unfold cached, getAlbums.
  split; [|split; [|split; [|split; [|split]]]].
  - intros data s ->. reflexivity.
  - intros pages last rest -> Hc Hok Hstop.
    rewrite (libraryApiGetAlbums_complete _ _ _ _ Hc Hok Hstop). simpl.
    eexists. split; [reflexivity|]. simpl.
    split; [reflexivity|].
    split; [now rewrite requests_for_length, length_app, Nat.add_comm|].
    split; [apply getItem_setItem_live; unfold albumCache_ttl; lia|].
    split; reflexivity.
  - intros pages -> Hc. now rewrite (libraryApiGetAlbums_starved _ _ Hc).
  - intros entries next. reflexivity.
  - intros pages err rest -> Hc Hb.
    rewrite (libraryApiGetAlbums_failure _ _ _ _ Hc).
    rewrite (catch_error_handled _ Hb). simpl.
    set (e := logger_error config
                (js_or (nested_error err) (exception_error err))).
    assert (He : truthy e = true) by apply handled_error_truthy.
    rewrite He, (returnError_truthy _ He).
    eexists. split; [reflexivity|]. simpl.
    split; [reflexivity|apply lookup_delete_eq].
  - intros pages err rest -> Hc Hb.
    rewrite (libraryApiGetAlbums_failure _ _ _ _ Hc). simpl.
    destruct (catch_error_rethrows _ Hb) as [x ->]. simpl.
    do 2 eexists. split; [reflexivity|]. split; reflexivity.
Qed.

(** ** What the routes keep true of the stores *)

Lemma returnPhotos_cache_backed st now user data sp :
  cache_backed st -> cache_backed (fst (returnPhotos st now user data sp)).
Proof.
  intros Hb. destruct (truthy (error data)) eqn:He.
  - now rewrite (returnPhotos_error _ _ _ _ _ He).
  - rewrite (returnPhotos_success _ _ _ _ _ He). simpl.
    intros u. simpl. unfold setItem.
    destruct (decide (user = u)) as [->|Hne].
    + rewrite !lookup_insert_eq. eauto.
    + rewrite !lookup_insert_ne by exact Hne. apply Hb.
Qed.

Lemma returnPhotos_invariants st now user data sp :
  cache_backed st /\ query_store_clean st ->
  let st' := fst (returnPhotos st now user data sp) in
  cache_backed st' /\ query_store_clean st'.
Proof.
  intros [Hb Hq] st'. unfold st'.
  split; [now apply returnPhotos_cache_backed|].
  destruct (truthy (error data)) eqn:He.
  - now rewrite (returnPhotos_error _ _ _ _ _ He).
  - rewrite (returnPhotos_success _ _ _ _ _ He). simpl.
    + intros u record. simpl.
      destruct (decide (user = u)) as [->|Hne].
      * rewrite lookup_insert_eq. intros [= <-]. simpl.
        split; [apply has_field_delete_other, has_field_delete_eq
               |apply has_field_delete_eq].
      * rewrite lookup_insert_ne by exact Hne. apply Hq.
Qed.

Lemma search_and_return_invariants st now req params s h :
  cache_backed st /\ query_store_clean st ->
  search_and_return config st now req params s = Some h ->
  cache_backed (final h) /\ query_store_clean (final h).
Proof.
  intros Hinv. unfold search_and_return.
  destruct (libraryApiSearch _ _ _ _) as [f|]; [|discriminate].
  destruct (returned f) as [data|e].
  - pose proof (returnPhotos_invariants st now (userId req) data
                  (parameters data) Hinv) as H.
    destruct (returnPhotos _ _ _ _ _) as [st' r]. now intros [= <-].
  - now intros [= <-].
Qed.

Lemma getAlbums_photo_stores st now req s h :
  getAlbums config st now req s = Some h ->
  mediaItemCache (final h) = mediaItemCache st /\ storage (final h) = storage st.
Proof.
  unfold getAlbums.
  destruct (getItem _ _ _); [now intros [= <-]|].
  destruct (libraryApiGetAlbums _ _ _) as [f|]; [|discriminate].
  destruct (returned f) as [data|e]; [|now intros [= <-]].
  destruct (truthy (albums_error data)); [|now intros [= <-]].
  destruct (returnError _); now intros [= <-].
Qed.

Lemma reachable_invariants st :
  reachable config st -> cache_backed st /\ query_store_clean st.
Proof.
  induction 1 as [|st now req s h _ IH H|st now req s h _ IH H
                  |st now req s h _ IH H|st now req s h _ IH H].
  - split.
    + intros u [x Hx]. simpl in Hx. now rewrite lookup_empty in Hx.
    + intros u record Hx. simpl in Hx. now rewrite lookup_empty in Hx.
  - exact (search_and_return_invariants _ _ _ _ _ _ IH H).
  - exact (search_and_return_invariants _ _ _ _ _ _ IH H).
  - destruct (getAlbums_photo_stores _ _ _ _ _ H) as [Hm Hs].
    destruct IH as [Hb Hq]. split.
    + intros u. rewrite Hm, Hs. apply Hb.
    + intros u record. rewrite Hs. apply Hq.
  - unfold getQueue in H.
    destruct (getItem _ _ _).
    + destruct (storage st !! userId req); now injection H as <-.
    + destruct (storage st !! userId req).
      * exact (search_and_return_invariants _ _ _ _ _ _ IH H).
      * now injection H as <-.
Qed.

(** C5.  When [returnPhotos] stores search parameters (the call succeeded),
    the record it leaves in [storage] for the user has neither a [pageToken]
    nor a [pageSize], whatever the parameters passed in had; every other
    field is kept as passed, and no other user's record is touched.  As no
    other code writes to [storage], no record the routes ever leave there
    has either field. *)
Theorem returnPhotos_strips_page_fields st now user data sp :
  truthy (error data) = false ->
  let st' := fst (returnPhotos st now user data sp) in
  (exists kept,
     storage st' !! user = Some (mkStored kept)
     /\ has_field "pageToken" kept = false
     /\ has_field "pageSize" kept = false
     /\ (forall p, p <> "pageToken" -> p <> "pageSize" ->
         lookup_field p kept = lookup_field p sp)
     /\ (forall u, u <> user -> storage st' !! u = storage st !! u))
  /\ (forall st0, reachable config st0 -> query_store_clean st0).
Proof.
  intros H st'. split; [|intros st0 Hr; now apply reachable_invariants].
  unfold st'. rewrite (returnPhotos_success _ _ _ _ _ H). simpl.
  eexists. split; [apply lookup_insert_eq|].
  split; [apply has_field_delete_other, has_field_delete_eq|].
  split; [apply has_field_delete_eq|].
  split.
  - intros p Ht Hs. now rewrite !lookup_delete_field_ne.
  - intros u Hu. now rewrite lookup_insert_ne.
Qed.

Lemma getItem_Some_slot {T : Type} now u (c : gmap string (Entry T)) v :
  getItem now u c = Some v -> is_Some (c !! u).
Proof. unfold getItem. destruct (c !! u); [eauto | discriminate]. Qed.

(** C10.  On its cache-hit branch /getQueue reads [stored.parameters] with no
    check that a record was found.  Where the cache holds photos for the user
    and [storage] has no record, the read throws and the handler is rejected
    without a response.  The routes never get there: photos are cached only
    by [returnPhotos], which stores a record in the same call, so in every
    state the routes can reach a cached user has a record, and the cache-hit
    branch answers 200 with the cached photos and the stored parameters. *)
Theorem getQueue_cache_hit_needs_record :
  (forall st now req s items,
     getItem now (userId req) (mediaItemCache st) = Some items ->
     storage st !! userId req = None ->
     getQueue config st now req s
     = Some (mkHandled st
               (Throw (TypeError "Cannot read properties of undefined")) []))
  /\ (forall st now user data sp,
        cache_backed st -> cache_backed (fst (returnPhotos st now user data sp)))
  /\ (forall st, reachable config st -> cache_backed st)
  /\ (forall st now req s items,
        reachable config st ->
        getItem now (userId req) (mediaItemCache st) = Some items ->
        exists record,
          storage st !! userId req = Some record
          /\ getQueue config st now req s
             = Some (mkHandled st
                       (Ok (mkResponse (VNum 200)
                              (VObj [("photos", VArr items);
                                     ("parameters",
                                      VObj (stored_parameters record))])))
                       [])).
Proof.
  split; [|split; [|split]].
  - intros st now req s items Hc Hs. unfold getQueue. now rewrite Hc, Hs.
  - intros st now user data sp. apply returnPhotos_cache_backed.
  - intros st H. now apply reachable_invariants.
  - intros st now req s items Hr Hc.
    destruct (reachable_invariants _ Hr) as [Hb _].
    destruct (Hb _ (getItem_Some_slot _ _ _ _ Hc)) as [record Hrec].
    exists record. split; [exact Hrec|].
    unfold getQueue. now rewrite Hc, Hrec.
Qed.

End Properties.

(** * Further properties of the server *)

Section MoreProperties.

Variable config : Config.

(** ** Building the search request *)

(** X1.  [constructDate] sets exactly the parts of the date that were given
    (truthy), each to the value given, in the order year, month, day, and
    nothing else: a missing part is left out, which the API reads as a
    wildcard. *)
Theorem constructDate_sets_given_parts year month day :
  let date := constructDate year month day in
  date = (if truthy year then [("year", year)] else [])
           ++ (if truthy month then [("month", month)] else [])
           ++ (if truthy day then [("day", day)] else [])
  /\ lookup_field "year" date = (if truthy year then Some year else None)
  /\ lookup_field "month" date = (if truthy month then Some month else None)
  /\ lookup_field "day" date = (if truthy day then Some day else None)
  /\ (forall k, k <> "year" -> k <> "month" -> k <> "day" ->
      lookup_field k date = None)
  /\ length date
     = ((if truthy year then 1 else 0) + (if truthy month then 1 else 0)
        + (if truthy day then 1 else 0))%nat.
Proof.
  unfold constructDate.
  split; [|split; [|split; [|split; [|split]]]];
    try (destruct (truthy year), (truthy month), (truthy day); reflexivity).
  intros k Hy Hm Hd.
  destruct (truthy year), (truthy month), (truthy day);
    rewrite ?lookup_set_field_ne by assumption; reflexivity.
Qed.

Lemma get_field_lookup p (o : obj) v :
  lookup_field p o = Some v -> get_field p o = v.
Proof. unfold get_field. now intros ->. Qed.

(** X2.  Whatever the form holds, the filters of a search restrict the media
    type to photos and carry a content filter; a category is included (or
    excluded) exactly when the form gives one, as a one-element list. *)
Theorem search_filters_photos_only body :
  let filters := search_filters body in
  let inc := get_field "includedCategories" body in
  let exc := get_field "excludedCategories" body in
  lookup_field "mediaTypeFilter" filters
  = Some (VObj [("mediaTypes", VArr [VStr "PHOTO"])])
  /\ exists contentFilter,
       lookup_field "contentFilter" filters = Some (VObj contentFilter)
       /\ lookup_field "includedContentCategories" contentFilter
          = (if truthy inc then Some (VArr [inc]) else None)
       /\ lookup_field "excludedContentCategories" contentFilter
          = (if truthy exc then Some (VArr [exc]) else None).
Proof.
  unfold search_filters.
  destruct (truthy (get_field "includedCategories" body)),
           (truthy (get_field "excludedCategories" body)),
           (loosely_equals "exact" (get_field "dateFilter" body)),
           (loosely_equals "range" (get_field "dateFilter" body));
    simpl; (split; [reflexivity|]); eexists; repeat split.
Qed.

Lemma loosely_equals_one_word v :
  loosely_equals "exact" v = true -> loosely_equals "range" v = false.
Proof.
  revert v. fix IH 1. intros v.
  destruct v as [| | | |s|xs|o]; simpl; try discriminate.
  - destruct (String.eqb_spec s "exact") as [->|]; [reflexivity|discriminate].
  - destruct xs as [|x [|y xs]]; try discriminate. apply IH.
Qed.

(** X3.  A search carries a date filter only when the form's [dateFilter]
    equals ['exact'] or ['range'] (the two are exclusive): for ['exact'] the
    filter holds the single date built from the exact fields, for ['range']
    one range built from the start and end fields; otherwise the filters have
    no [dateFilter] at all. *)
Theorem search_filters_date body :
  let filters := search_filters body in
  let choice := get_field "dateFilter" body in
  let field k := get_field k body in
  (loosely_equals "exact" choice = true ->
   loosely_equals "range" choice = false
   /\ lookup_field "dateFilter" filters
      = Some (VObj [("dates",
                     VObj (constructDate (field "exactYear")
                             (field "exactMonth") (field "exactDay")))]))
  /\ (loosely_equals "range" choice = true ->
      lookup_field "dateFilter" filters
      = Some (VObj [("ranges",
                     VArr [VObj
                       [("startDate",
                         VObj (constructDate (field "startYear")
                                 (field "startMonth") (field "startDay")));
                        ("endDate",
                         VObj (constructDate (field "endYear")
                                 (field "endMonth") (field "endDay")))]])]))
  /\ (loosely_equals "exact" choice = false ->
      loosely_equals "range" choice = false ->
      lookup_field "dateFilter" filters = None)
  /\ (forall s, choice = VStr s ->
      loosely_equals "exact" choice = String.eqb s "exact"
      /\ loosely_equals "range" choice = String.eqb s "range").
Proof.
  intros filters choice field. unfold filters, search_filters. fold choice.
  split; [|split; [|split]].
  - intros He. split; [now apply loosely_equals_one_word|].
    now rewrite He.
  - intros Hr.
    destruct (loosely_equals "exact" choice) eqn:He.
    + apply loosely_equals_one_word in He. congruence.
    + now rewrite Hr.
  - intros He Hr. now rewrite He, Hr.
  - intros s ->. split; reflexivity.
Qed.

(** ** Filtering *)

Lemma filter_images_fixed xs : forall ys,
  filter_images xs = Ok ys ->
  List.filter truthy ys = ys /\ filter_images ys = Ok ys.
Proof.
  induction xs as [|x xs IH]; simpl; intros ys H.
  - injection H as <-. now split.
  - destruct (is_image x) as [keep|e] eqn:Hx; simpl in H; [|discriminate].
    destruct (filter_images xs) as [rest|e]; simpl in H; [|discriminate].
    injection H as <-. destruct (IH rest eq_refl) as [Hf Hi].
    destruct keep; [|now split].
    assert (Ht : truthy x = true).
    { unfold is_image in Hx. destruct x; simpl in Hx; try discriminate;
        reflexivity. }
    simpl. rewrite Ht, Hf, Hx, Hi. now split.
Qed.

(** X4.  Filtering is idempotent: a response made of the items the fetcher
    kept from a page is kept whole, in the same order. *)
Theorem search_items_idempotent res items next :
  search_items res = Ok items ->
  search_items (VObj [("mediaItems", VArr items); ("nextPageToken", next)])
  = Ok items.
Proof.
  unfold search_items at 1.
  destruct (truthy res); [|now intros [= <-]].
  destruct (get_prop res "mediaItems") as [l|e]; simpl; [|discriminate].
  destruct (truthy l); [|now intros [= <-]].
  destruct l; try discriminate.
  intros H. destruct (filter_images_fixed _ _ H) as [Hf Hi].
  unfold search_items. simpl. now rewrite Hf.
Qed.

(** ** What a search returns, for any behaviour of the upstream *)

Lemma libraryApiSearch_inv authToken params s f data :
  libraryApiSearch config authToken params s = Some f ->
  returned f = Ok data ->
  exists l,
    search_loop config authToken s []
      (set_field "pageSize" (searchPageSize config) params) [] = Some l
    /\ photos data = loop_photos l
    /\ parameters data = loop_parameters l
    /\ calls f = loop_calls l
    /\ unread f = loop_rest l
    /\ match loop_thrown l with
       | None => error data = VNull
       | Some err => catch_error config err = Ok (error data)
       end.
Proof.
  unfold libraryApiSearch.
  destruct (search_loop _ _ _ _ _ _) as [l|] eqn:Hl; [|discriminate].
  intros [= <-]. simpl. exists l.
  destruct (loop_thrown l) as [err|].
  - destruct (catch_error config err) as [e|x]; simpl in *; [|discriminate].
    injection H as <-. simpl. repeat split; reflexivity.
  - injection H as <-. simpl. repeat split; reflexivity.
Qed.

Lemma search_loop_finished authToken s : forall held p sent l,
  search_loop config authToken s held p sent = Some l ->
  loop_thrown l = None ->
  exists pages last,
    s = map Ok pages ++ Ok last :: loop_rest l
    /\ all_continue config (length held) pages = true
    /\ search_page_ok last = true
    /\ wants_more config (length held + length (gathered (pages ++ [last]))) last
       = false
    /\ loop_photos l = held ++ gathered (pages ++ [last])
    /\ loop_parameters l = retoken (page_token last) p
    /\ length (loop_calls l) = (length sent + S (length pages))%nat.
Proof.
  induction s as [|c s IH]; intros held p sent l H Hn; [discriminate|].
  simpl in H. destruct c as [res|err]; [|now inversion H; subst].
  destruct (search_items res) as [items|err] eqn:Hi; [|now inversion H; subst].
  destruct (get_prop res "nextPageToken") as [tok|err] eqn:Ht;
    [|now inversion H; subst].
  assert (Hok : search_page_ok res = true).
  { unfold search_page_ok. rewrite Hi. destruct res; try discriminate;
      reflexivity. }
  assert (Hitems : page_items res = items) by (unfold page_items; now rewrite Hi).
  assert (Htok : page_token res = tok)
    by (unfold page_token, field_of; now rewrite Ht).
  destruct (_ && _) eqn:Hw.
  - destruct (IH _ _ _ _ H Hn)
      as (pages & last & Hs & Hc & Hl & Hstop & Hp & Hq & Hlen).
    exists (res :: pages), last. rewrite length_app in *. simpl.
    split; [now rewrite Hs|]. rewrite Hok, Hitems. unfold wants_more at 1.
    rewrite Htok, Hw. simpl. split; [exact Hc|]. split; [exact Hl|].
    unfold gathered in *. simpl. rewrite length_app.
    split; [now rewrite Nat.add_assoc|].
    split; [now rewrite Hp, <- app_assoc|].
    split; [rewrite Hq; apply retoken_retoken|].
    rewrite Hlen. simpl. lia.
  - injection H as <-. subst items tok. exists [], res.
    unfold gathered, retoken, wants_more. simpl.
    rewrite !app_nil_r, <- length_app, Hw, length_app. simpl.
    repeat split; try reflexivity; try assumption.
Qed.

(** X5.  Whatever the upstream does, a search that returns without an error
    has read only well-formed pages, each but the last leaving fewer photos
    than wanted and carrying a token; it holds exactly the kept items of
    those pages, and either at least [config.photosToLoad] of them or the
    last page had no continuation token.  Any error it returns instead is
    truthy, so [if (data.error)] never takes a failure for a success. *)
Theorem libraryApiSearch_success authToken params s f data :
  libraryApiSearch config authToken params s = Some f ->
  returned f = Ok data ->
  (error data = VNull \/ truthy (error data) = true)
  /\ (error data = VNull ->
      exists pages last,
        s = map Ok pages ++ Ok last :: unread f
        /\ all_continue config 0 pages = true
        /\ search_page_ok last = true
        /\ photos data = gathered (pages ++ [last])
        /\ length (calls f) = S (length pages)
        /\ get_field "pageToken" (parameters data) = page_token last
        /\ (photosToLoad config <= Z.of_nat (length (photos data))
            \/ nullish (page_token last) = true)).
Proof.
  intros Hf Hr.
  destruct (libraryApiSearch_inv _ _ _ _ _ Hf Hr)
    as (l & Hl & Hp & Hq & Hc & Hu & He).
  destruct (loop_thrown l) as [err|] eqn:Ht.
  - pose proof (catch_error_truthy _ _ _ He) as Htr.
    split; [now right|]. intros Hnull. rewrite Hnull in Htr. discriminate.
  - split; [now left|]. intros _.
    destruct (search_loop_finished _ _ _ _ _ _ Hl Ht)
      as (pages & last & Hs & Hall & Hok & Hstop & Hph & Hpar & Hlen).
    exists pages, last. rewrite Hu, Hp, Hq, Hc, Hph, Hpar. simpl in *.
    split; [exact Hs|]. split; [exact Hall|]. split; [exact Hok|].
    split; [reflexivity|]. split; [exact Hlen|].
    split; [unfold retoken, get_field; now rewrite lookup_set_field_eq|].
    now apply wants_more_false in Hstop.
Qed.

(** ** What a search sends *)

Lemma search_loop_requests authToken s : forall held p sent l,
  search_loop config authToken s held p sent = Some l ->
  exists more,
    loop_calls l = sent ++ mkApiCall authToken p :: more
    /\ Forall (fun c => nullish (get_field "pageToken" (json c)) = false) more
    /\ (length (loop_calls l) + length (loop_rest l)
        = length sent + length s)%nat.
Proof.
  induction s as [|c s IH]; intros held p sent l H; [discriminate|].
  simpl in H.
  assert (Hexit : forall ph q th,
            exists more,
              loop_calls (mkSearchLoop ph q th
                            (sent ++ [mkApiCall authToken p]) s)
              = sent ++ mkApiCall authToken p :: more
              /\ Forall (fun c => nullish (get_field "pageToken" (json c)) = false)
                   more
              /\ (length (loop_calls (mkSearchLoop ph q th
                            (sent ++ [mkApiCall authToken p]) s))
                  + length (loop_rest (mkSearchLoop ph q th
                            (sent ++ [mkApiCall authToken p]) s))
                  = length sent + length (c :: s))%nat).
  { intros ph q th. exists []. simpl. rewrite length_app. simpl.
    repeat split; [constructor | lia]. }
  destruct c as [res|err]; [|inversion H; subst; apply Hexit].
  destruct (search_items res) as [items|err];
    [|inversion H; subst; apply Hexit].
  destruct (get_prop res "nextPageToken") as [tok|err];
    [|inversion H; subst; apply Hexit].
  destruct (_ && _) eqn:Hw; [|inversion H; subst; apply Hexit].
  apply andb_true_iff in Hw as [_ Hw]. apply negb_true_iff in Hw.
  destruct (IH _ _ _ _ H) as (more & Hc & Hall & Hlen).
  exists (mkApiCall authToken (set_field "pageToken" tok p) :: more).
  split; [now rewrite Hc, <- app_assoc|]. split.
  - constructor; [|exact Hall]. simpl. unfold get_field.
    now rewrite lookup_set_field_eq.
  - rewrite length_app in Hlen. simpl in *. lia.
Qed.

(** X6.  Every request of a search is sent with the caller's token and
    carries [pageSize = config.searchPageSize] and the caller's own query
    fields unchanged; the first carries the parameters as passed (plus the
    page size), each later one a non-null [pageToken]; and one request is
    sent per upstream completion read. *)
Theorem libraryApiSearch_requests authToken params s f :
  libraryApiSearch config authToken params s = Some f ->
  (exists more,
     calls f = mkApiCall authToken
                 (set_field "pageSize" (searchPageSize config) params) :: more
     /\ Forall (fun c => nullish (get_field "pageToken" (json c)) = false) more)
  /\ Forall (fun c =>
       bearer c = authToken
       /\ lookup_field "pageSize" (json c) = Some (searchPageSize config)
       /\ forall k, k <> "pageToken" -> k <> "pageSize" ->
            lookup_field k (json c) = lookup_field k params) (calls f)
  /\ (length (calls f) + length (unread f) = length s)%nat.
Proof.
  unfold libraryApiSearch.
  destruct (search_loop _ _ _ _ _ _) as [l|] eqn:Hl; [|discriminate].
  intros [= <-]. simpl.
  destruct (search_loop_requests _ _ _ _ _ _ Hl) as (more & Hc & Hall & Hlen).
  split; [now exists more|]. split; [|exact Hlen].
  set (p0 := set_field "pageSize" (searchPageSize config) params) in *.
  set (Q := fun c : ApiCall =>
         bearer c = authToken
         /\ lookup_field "pageSize" (json c) = Some (searchPageSize config)
         /\ forall k, k <> "pageToken" -> k <> "pageSize" ->
              lookup_field k (json c) = lookup_field k params).
  assert (HI : Q (mkApiCall authToken (loop_parameters l))
               /\ Forall Q (loop_calls l)).
  { refine (search_loop_invariant config authToken
              (fun _ p sent => Q (mkApiCall authToken p) /\ Forall Q sent)
              _ _ _ s [] p0 [] l _ Hl).
    - intros held p sent [Hp Hs]. split; [exact Hp|].
      apply Forall_app. split; [exact Hs|]. now constructor.
    - intros held p sent res items [Hp Hs] _. now split.
    - intros held p sent tok [(Hb & Hsz & Hk) Hs]. split; [|exact Hs].
      unfold Q, retoken. simpl. split; [reflexivity|].
      split; [now rewrite lookup_set_field_ne by discriminate|].
      intros k Ht Hz. rewrite lookup_set_field_ne by exact Ht. now apply Hk.
    - split; [|constructor]. unfold Q, p0. simpl. split; [reflexivity|].
      split; [apply lookup_set_field_eq|].
      intros k _ Hz. now apply lookup_set_field_ne. }
  exact (proj2 HI).
Qed.

(** ** Where the photos come from *)

Lemma filter_images_sublist xs : forall ys,
  filter_images xs = Ok ys -> sublist ys xs.
Proof.
  induction xs as [|x xs IH]; simpl; intros ys H.
  - injection H as <-. constructor.
  - destruct (is_image x) as [keep|e]; simpl in H; [|discriminate].
    destruct (filter_images xs) as [rest|e]; simpl in H; [|discriminate].
    injection H as <-. destruct keep.
    + apply sublist_skip, IH. reflexivity.
    + apply sublist_cons, IH. reflexivity.
Qed.

Lemma filter_truthy_sublist xs : sublist (List.filter truthy xs) xs.
Proof.
  induction xs as [|x xs IH]; simpl; [constructor|].
  destruct (truthy x); [now apply sublist_skip | now apply sublist_cons].
Qed.

Lemma search_items_sublist res items :
  search_items res = Ok items -> sublist items (raw_items res).
Proof.
  unfold search_items, raw_items, field_of.
  destruct (truthy res); [|intros [= <-]; apply sublist_nil_l].
  destruct (get_prop res "mediaItems") as [l|e]; simpl; [|discriminate].
  destruct (truthy l); [|intros [= <-]; apply sublist_nil_l].
  destruct l; try discriminate.
  intros H. etransitivity; [exact (filter_images_sublist _ _ H)|].
  apply filter_truthy_sublist.
Qed.

Lemma search_loop_sublist authToken s : forall held p sent l,
  search_loop config authToken s held p sent = Some l ->
  exists added,
    loop_photos l = held ++ added /\ sublist added (upstream_items s).
Proof.
  induction s as [|c s IH]; intros held p sent l H; [discriminate|].
  simpl in H.
  assert (Hnone : forall q th cs,
            exists added,
              loop_photos (mkSearchLoop held q th cs s) = held ++ added
              /\ sublist added (upstream_items (c :: s))).
  { intros. exists []. simpl. split; [now rewrite app_nil_r|].
    apply sublist_nil_l. }
  destruct c as [res|err]; [|inversion H; subst; apply Hnone].
  destruct (search_items res) as [items|err] eqn:Hi;
    [|inversion H; subst; apply Hnone].
  pose proof (search_items_sublist _ _ Hi) as Hsub.
  assert (Hone : forall q th cs,
            exists added,
              loop_photos (mkSearchLoop (held ++ items) q th cs s)
              = held ++ added
              /\ sublist added (upstream_items (Ok res :: s))).
  { intros. exists items. simpl. split; [reflexivity|].
    now apply sublist_inserts_r. }
  destruct (get_prop res "nextPageToken") as [tok|err];
    [|inversion H; subst; apply Hone].
  destruct (_ && _); [|inversion H; subst; apply Hone].
  destruct (IH _ _ _ _ H) as (added & Hp & Hs).
  exists (items ++ added). split; [now rewrite Hp, app_assoc|].
  simpl. now apply sublist_app.
Qed.

(** X7.  The photos a search returns are items the upstream sent, in the
    order it sent them, none twice over, each one non-empty and with an image
    MIME type: the fetcher drops items and never adds or reorders any. *)
Theorem libraryApiSearch_photos_from_upstream authToken params s f data :
  libraryApiSearch config authToken params s = Some f ->
  returned f = Ok data ->
  sublist (photos data) (upstream_items s)
  /\ Forall (fun x => truthy x = true /\ image_item x) (photos data).
Proof.
  intros Hf Hr.
  destruct (libraryApiSearch_inv _ _ _ _ _ Hf Hr) as (l & Hl & Hp & _).
  split.
  - destruct (search_loop_sublist _ _ _ _ _ _ Hl) as (added & Ha & Hs).
    rewrite Hp, Ha. exact Hs.
  - pose proof (libraryApiSearch_images _ _ _ _ _ _ Hf Hr) as Himg.
    eapply Forall_impl; [exact Himg|].
    intros x (m & Hm & Hpre). split; [|now exists m].
    destruct x; try discriminate Hm; reflexivity.
Qed.

(** ** What an album listing returns and sends *)

Lemma add_albums_inv albums res albums' :
  add_albums albums res = Ok albums' ->
  albums' = albums ++ page_albums res
  /\ add_albums [] res = Ok (page_albums res)
  /\ Forall (fun x => truthy x = true) (page_albums res).
Proof.
  unfold page_albums, add_albums.
  destruct (truthy res);
    [|intros [= <-]; rewrite app_nil_r; repeat split; constructor].
  destruct (get_prop res "albums") as [l|e]; simpl; [|discriminate].
  destruct (truthy l);
    [|intros [= <-]; rewrite app_nil_r; repeat split; constructor].
  destruct l; try discriminate. intros [= <-]. repeat split.
  apply Forall_forall. intros x Hx.
  apply list_elem_of_In, filter_In in Hx. apply Hx.
Qed.

Lemma albums_loop_finished authToken s : forall held p sent l,
  albums_loop authToken s held p sent = Some l ->
  (Forall (fun x => truthy x = true) held ->
   Forall (fun x => truthy x = true) (aloop_albums l))
  /\ (exists more,
        aloop_calls l = sent ++ mkApiCall authToken p :: more
        /\ Forall (fun c => bearer c = authToken
                            /\ exists t, nullish t = false
                                         /\ json c = retoken t p) more)
  /\ (length (aloop_calls l) + length (aloop_rest l)
      = length sent + length s)%nat
  /\ (aloop_thrown l = None ->
      exists pages last,
        s = map Ok pages ++ Ok last :: aloop_rest l
        /\ all_have_token pages = true
        /\ album_page_ok last = true
        /\ nullish (page_token last) = true
        /\ aloop_albums l = held ++ listed (pages ++ [last])).
Proof.
  induction s as [|c s IH]; intros held p sent l H; [discriminate|].
  simpl in H.
  assert (Hlen1 : (length (sent ++ [mkApiCall authToken p]) + length s
                   = length sent + length (c :: s))%nat)
    by (rewrite length_app; simpl; lia).
  destruct c as [res|err].
  2:{ injection H as <-. simpl. split; [easy|].
      split; [exists []; now split|]. split; [exact Hlen1|discriminate]. }
  destruct (add_albums held res) as [held'|err] eqn:Ha.
  2:{ injection H as <-. simpl. split; [easy|].
      split; [exists []; now split|]. split; [exact Hlen1|discriminate]. }
  destruct (add_albums_inv _ _ _ Ha) as (-> & Ha0 & Htr).
  destruct (get_prop res "nextPageToken") as [tok|err] eqn:Ht.
  2:{ injection H as <-. simpl.
      split; [intros Hh; apply Forall_app; now split|].
      split; [exists []; now split|]. split; [exact Hlen1|discriminate]. }
  assert (Hok : album_page_ok res = true).
  { unfold album_page_ok. rewrite Ha0. destruct res; try discriminate;
      reflexivity. }
  assert (Htok : page_token res = tok)
    by (unfold page_token, field_of; now rewrite Ht).
  destruct (negb (nullish tok)) eqn:Hw.
  - destruct (IH _ _ _ _ H) as (Hall & (more & Hc & Hmore) & Hlen & Hfin).
    split; [intros Hh; apply Hall, Forall_app; now split|].
    split; [|split].
    + exists (mkApiCall authToken (retoken tok p) :: more).
      split; [now rewrite Hc, <- app_assoc|].
      constructor.
      * simpl. split; [reflexivity|]. exists tok.
        split; [now apply negb_true_iff in Hw | reflexivity].
      * eapply Forall_impl; [exact Hmore|].
        intros c [Hb (t & Hn & Hj)]. split; [exact Hb|]. exists t.
        split; [exact Hn|]. rewrite Hj. apply retoken_retoken.
    + rewrite Hlen, length_app. simpl. lia.
    + intros Hn. destruct (Hfin Hn) as (pages & last & Hs & Hp & Hl & Hstop & Hal).
      exists (res :: pages), last. simpl. rewrite Hok, Htok, Hw. simpl.
      split; [now rewrite Hs|]. split; [exact Hp|]. split; [exact Hl|].
      split; [exact Hstop|]. rewrite Hal. unfold listed. simpl.
      now rewrite <- app_assoc.
  - injection H as <-. simpl.
    split; [intros Hh; apply Forall_app; now split|].
    split; [exists []; now split|]. split; [exact Hlen1|].
    intros _. exists [], res. unfold listed. simpl. rewrite app_nil_r, Htok.
    apply negb_false_iff in Hw. now repeat split.
Qed.

(** X8.  Whatever the upstream does, the albums a listing returns are
    non-empty entries only.  A listing that returns without an error has read
    well-formed pages up to the first one without a continuation token, and
    holds the non-empty entries of all of them, in order; an error it returns
    instead is truthy. *)
Theorem libraryApiGetAlbums_success authToken s f data :
  libraryApiGetAlbums config authToken s = Some f ->
  returned f = Ok data ->
  Forall (fun x => truthy x = true) (albums data)
  /\ (albums_error data = VNull \/ truthy (albums_error data) = true)
  /\ (albums_error data = VNull ->
      exists pages last,
        s = map Ok pages ++ Ok last :: unread f
        /\ all_have_token pages = true
        /\ album_page_ok last = true
        /\ nullish (page_token last) = true
        /\ albums data = listed (pages ++ [last])).
Proof.
  unfold libraryApiGetAlbums.
  destruct (albums_loop _ _ _ _ _) as [l|] eqn:Hl; [|discriminate].
  intros [= <-]. simpl.
  destruct (albums_loop_finished _ _ _ _ _ _ Hl) as (Hall & _ & _ & Hfin).
  specialize (Hall (Forall_nil_2 _)).
  destruct (aloop_thrown l) as [err|].
  - destruct (catch_error config err) as [e|x] eqn:He; simpl; [|discriminate].
    intros [= <-]. simpl. pose proof (catch_error_truthy _ _ _ He) as Ht.
    split; [exact Hall|]. split; [now right|].
    intros Hn. rewrite Hn in Ht. discriminate.
  - intros [= <-]. simpl. split; [exact Hall|]. split; [now left|].
    intros _. exact (Hfin eq_refl).
Qed.

(** X9.  The first request of a listing carries exactly
    [{pageSize: config.albumPageSize}]; every later one carries exactly that
    page size and a non-null [pageToken]; all are sent with the caller's
    token, one per upstream completion read. *)
Theorem libraryApiGetAlbums_requests authToken s f :
  libraryApiGetAlbums config authToken s = Some f ->
  (exists more,
     calls f = mkApiCall authToken [("pageSize", albumPageSize config)] :: more
     /\ Forall (fun c =>
          bearer c = authToken
          /\ exists t, nullish t = false
               /\ json c = [("pageSize", albumPageSize config);
                            ("pageToken", t)]) more)
  /\ (length (calls f) + length (unread f) = length s)%nat.
Proof.
  unfold libraryApiGetAlbums.
  destruct (albums_loop _ _ _ _ _) as [l|] eqn:Hl; [|discriminate].
  intros [= <-]. simpl.
  destruct (albums_loop_finished _ _ _ _ _ _ Hl)
    as (_ & (more & Hc & Hmore) & Hlen & _).
  split; [now exists more | exact Hlen].
Qed.

(** ** The routes and the stores *)

Lemma search_and_return_stores st now req params s h :
  search_and_return config st now req params s = Some h ->
  albumCache (final h) = albumCache st
  /\ forall u, u <> userId req ->
       mediaItemCache (final h) !! u = mediaItemCache st !! u
       /\ storage (final h) !! u = storage st !! u.
Proof.
  unfold search_and_return.
  destruct (libraryApiSearch _ _ _ _) as [f|]; [|discriminate].
  destruct (returned f) as [data|e]; [|now intros [= <-]].
  destruct (truthy (error data)) eqn:He.
  - rewrite (returnPhotos_error _ _ _ _ _ He). now intros [= <-].
  - rewrite (returnPhotos_success _ _ _ _ _ He). intros [= <-]. simpl.
    split; [reflexivity|]. intros u Hu. unfold setItem.
    now rewrite !lookup_insert_ne by congruence.
Qed.

(** X10.  A route only ever changes the slots of the user who made the
    request: every other user's cached photos, cached albums and stored
    query are as before.  Moreover the three photo routes never touch the
    album cache, and /getAlbums never touches the photo cache or the stored
    queries. *)
Theorem routes_keep_to_their_user st now req s h :
  (loadFromSearch config st now req s = Some h
   \/ loadFromAlbum config st now req s = Some h
   \/ getQueue config st now req s = Some h
   \/ getAlbums config st now req s = Some h ->
   forall u, u <> userId req ->
     mediaItemCache (final h) !! u = mediaItemCache st !! u
     /\ albumCache (final h) !! u = albumCache st !! u
     /\ storage (final h) !! u = storage st !! u)
  /\ (loadFromSearch config st now req s = Some h
      \/ loadFromAlbum config st now req s = Some h
      \/ getQueue config st now req s = Some h ->
      albumCache (final h) = albumCache st)
  /\ (getAlbums config st now req s = Some h ->
      mediaItemCache (final h) = mediaItemCache st
      /\ storage (final h) = storage st).
Proof.
  assert (Hphoto : forall params,
            search_and_return config st now req params s = Some h ->
            (forall u, u <> userId req ->
               mediaItemCache (final h) !! u = mediaItemCache st !! u
               /\ albumCache (final h) !! u = albumCache st !! u
               /\ storage (final h) !! u = storage st !! u)
            /\ albumCache (final h) = albumCache st).
  { intros params H.
    destruct (search_and_return_stores _ _ _ _ _ _ H) as [Ha Hu].
    split; [|exact Ha]. intros u Hne. destruct (Hu u Hne) as [Hm Hs].
    now rewrite Ha. }
  assert (Hqueue : getQueue config st now req s = Some h ->
            (forall u, u <> userId req ->
               mediaItemCache (final h) !! u = mediaItemCache st !! u
               /\ albumCache (final h) !! u = albumCache st !! u
               /\ storage (final h) !! u = storage st !! u)
            /\ albumCache (final h) = albumCache st).
  { unfold getQueue.
    destruct (getItem _ _ _); destruct (storage st !! userId req);
      try (intros [= <-]; now split).
    apply Hphoto. }
  assert (Halbums : getAlbums config st now req s = Some h ->
            (forall u, u <> userId req ->
               mediaItemCache (final h) !! u = mediaItemCache st !! u
               /\ albumCache (final h) !! u = albumCache st !! u
               /\ storage (final h) !! u = storage st !! u)
            /\ mediaItemCache (final h) = mediaItemCache st
            /\ storage (final h) = storage st).
  { intros H. destruct (getAlbums_photo_stores _ _ _ _ _ _ H) as [Hm Hs].
    split; [|now split]. intros u Hne. rewrite Hm, Hs.
    split; [reflexivity|]. split; [|reflexivity].
    unfold getAlbums in H.
    destruct (getItem _ _ _); [now injection H as <-|].
    destruct (libraryApiGetAlbums _ _ _) as [f|]; [|discriminate].
    destruct (returned f) as [data|e]; [|now injection H as <-].
    destruct (truthy (albums_error data)).
    - destruct (returnError _); injection H as <-; [|reflexivity].
      simpl. unfold removeItem. now rewrite lookup_delete_ne by congruence.
    - injection H as <-. simpl. unfold setItem.
      now rewrite lookup_insert_ne by congruence. }
  split; [|split].
  - intros [H|[H|[H|H]]].
    + exact (proj1 (Hphoto _ H)).
    + exact (proj1 (Hphoto _ H)).
    + exact (proj1 (Hqueue H)).
    + exact (proj1 (Halbums H)).
  - intros [H|[H|H]].
    + exact (proj2 (Hphoto _ H)).
    + exact (proj2 (Hphoto _ H)).
    + exact (proj2 (Hqueue H)).
  - intros Hg. exact (proj2 (Halbums Hg)).
Qed.

(** X11.  Every response a route sends has a truthy status: 200, or the
    code of the error it sends as the body, or 500. *)
Theorem routes_send_a_status st now req s h r :
  loadFromSearch config st now req s = Some h
  \/ loadFromAlbum config st now req s = Some h
  \/ getQueue config st now req s = Some h
  \/ getAlbums config st now req s = Some h ->
  reply h = Ok r ->
  truthy (status r) = true
  /\ (status r = VNum 200
      \/ status r = VNum 500
      \/ status r = field_of (sent r) "code").
Proof.
  assert (Herr : forall e,
            truthy (js_or (field_of e "code") (VNum 500)) = true
            /\ (js_or (field_of e "code") (VNum 500) = VNum 200
                \/ js_or (field_of e "code") (VNum 500) = VNum 500
                \/ js_or (field_of e "code") (VNum 500) = field_of e "code")).
  { intros e. unfold js_or.
    destruct (truthy (field_of e "code")) eqn:Hc; split; auto. }
  assert (Hphoto : forall params,
            search_and_return config st now req params s = Some h ->
            reply h = Ok r ->
            truthy (status r) = true
            /\ (status r = VNum 200 \/ status r = VNum 500
                \/ status r = field_of (sent r) "code")).
  { intros params. unfold search_and_return.
    destruct (libraryApiSearch _ _ _ _) as [f|]; [|discriminate].
    destruct (returned f) as [data|e]; [|intros [= <-]; discriminate].
    destruct (truthy (error data)) eqn:He.
    - rewrite (returnPhotos_error _ _ _ _ _ He). intros [= <-] [= <-].
      apply Herr.
    - rewrite (returnPhotos_success _ _ _ _ _ He). intros [= <-] [= <-].
      simpl. auto. }
  intros [H|[H|[H|H]]] Hr.
  - exact (Hphoto _ H Hr).
  - exact (Hphoto _ H Hr).
  - unfold getQueue in H.
    destruct (getItem _ _ _); destruct (storage st !! userId req);
      try (injection H as <-; try discriminate Hr;
           injection Hr as <-; simpl; auto).
    exact (Hphoto _ H Hr).
  - unfold getAlbums in H.
    destruct (getItem _ _ _);
      [injection H as <-; injection Hr as <-; simpl; auto|].
    destruct (libraryApiGetAlbums _ _ _) as [f|]; [|discriminate].
    destruct (returned f) as [data|e]; [|injection H as <-; discriminate].
    destruct (truthy (albums_error data)) eqn:He.
    + rewrite (returnError_truthy _ He) in H. injection H as <-.
      injection Hr as <-. apply Herr.
    + injection H as <-. injection Hr as <-. simpl. auto.
Qed.

(** ** A selection and the queue after it *)

Lemma selection_then_queue st t req params s f data :
  has_field "pageToken" params = false ->
  has_field "pageSize" params = false ->
  libraryApiSearch config (token req) params s = Some f ->
  returned f = Ok data ->
  error data = VNull ->
  exists h,
    search_and_return config st t req params s = Some h
    /\ reply h
       = Ok (mkResponse (VNum 200)
               (VObj [("photos", VArr (photos data));
                      ("parameters", VObj params)]))
    /\ (forall t' req' s',
          userId req' = userId req ->
          t' <= t + mediaItemCache_ttl ->
          getQueue config (final h) t' req' s'
          = Some (mkHandled (final h)
                    (Ok (mkResponse (VNum 200)
                           (VObj [("photos", VArr (photos data));
                                  ("parameters", VObj params)])))
                    []))
    /\ (forall t' req' s',
          userId req' = userId req ->
          t + mediaItemCache_ttl < t' ->
          getQueue config (final h) t' req' s'
          = search_and_return config (final h) t' req' params s').
Proof.
  intros Ht Hs Hf Hr He.
  assert (Hfalse : truthy (error data) = false) by (now rewrite He).
  pose proof (libraryApiSearch_strip _ _ _ _ _ _ Ht Hs Hf Hr) as Hk.
  eexists. split.
  { unfold search_and_return. rewrite Hf, Hr.
    rewrite (returnPhotos_success _ _ _ _ _ Hfalse), Hk. reflexivity. }
  simpl. split; [reflexivity|]. split.
  - intros t' req' s' Hu Hlive. unfold getQueue. simpl. rewrite Hu.
    rewrite (getItem_setItem_live _ _ _ _ _ _ Hlive), lookup_insert_eq.
    reflexivity.
  - intros t' req' s' Hu Hdead. unfold getQueue. simpl. rewrite Hu.
    rewrite (getItem_setItem_lapsed _ _ _ _ _ _ Hdead), lookup_insert_eq.
    reflexivity.
Qed.

(** X12.  After an album was loaded without error, /getQueue for the same
    user answers, for the next 55 minutes, with the photos that were loaded
    and the album's parameters, without any request to the upstream and
    without changing the stores.  Later than that it behaves exactly like
    loading the same album again. *)
Theorem album_then_queue st t req s f data :
  libraryApiSearch config (token req)
    [("albumId", get_field "albumId" (body req))] s = Some f ->
  returned f = Ok data ->
  error data = VNull ->
  exists h,
    loadFromAlbum config st t req s = Some h
    /\ (forall t' s',
          t' < t + 55 * 60 * 1000 ->
          getQueue config (final h) t' req s'
          = Some (mkHandled (final h)
                    (Ok (mkResponse (VNum 200)
                           (VObj [("photos", VArr (photos data));
                                  ("parameters",
                                   VObj [("albumId",
                                          get_field "albumId" (body req))])])))
                    []))
    /\ (forall t' s',
          t + 55 * 60 * 1000 < t' ->
          getQueue config (final h) t' req s'
          = loadFromAlbum config (final h) t' req s').
Proof.
  intros Hf Hr He.
  destruct (selection_then_queue st t req
              [("albumId", get_field "albumId" (body req))] s f data
              eq_refl eq_refl Hf Hr He)
    as (h & Hh & _ & Hlive & Hdead).
  exists h. split; [exact Hh|]. split.
  - intros t' s' Ht. apply Hlive; [reflexivity|].
    unfold mediaItemCache_ttl. lia.
  - intros t' s' Ht. unfold loadFromAlbum. apply Hdead; [reflexivity|exact Ht].
Qed.

(** X13.  After a filter search ran without error, /getQueue for the same
    user answers, for the next 55 minutes, with the photos found and the
    filters of the search, without any request to the upstream; later than
    that it submits the stored filters again, whatever form data the new
    request carries. *)
Theorem search_then_queue st t req s f data :
  libraryApiSearch config (token req)
    [("filters", VObj (search_filters (body req)))] s = Some f ->
  returned f = Ok data ->
  error data = VNull ->
  exists h,
    loadFromSearch config st t req s = Some h
    /\ storage (final h) !! userId req
       = Some (mkStored [("filters", VObj (search_filters (body req)))])
    /\ (forall t' s' form,
          t' < t + 55 * 60 * 1000 ->
          getQueue config (final h) t'
            (mkRequest (userId req) (token req) form) s'
          = Some (mkHandled (final h)
                    (Ok (mkResponse (VNum 200)
                           (VObj [("photos", VArr (photos data));
                                  ("parameters",
                                   VObj [("filters",
                                          VObj (search_filters (body req)))])])))
                    []))
    /\ (forall t' s' form,
          t + 55 * 60 * 1000 < t' ->
          getQueue config (final h) t'
            (mkRequest (userId req) (token req) form) s'
          = loadFromSearch config (final h) t' req s').
Proof.
  intros Hf Hr He.
  assert (Hfalse : truthy (error data) = false) by (now rewrite He).
  destruct (selection_then_queue st t req
              [("filters", VObj (search_filters (body req)))] s f data
              eq_refl eq_refl Hf Hr He)
    as (h & Hh & _ & Hlive & Hdead).
  exists h. split; [exact Hh|]. split; [|split].
  - unfold search_and_return in Hh. rewrite Hf, Hr in Hh.
    rewrite (returnPhotos_success _ _ _ _ _ Hfalse) in Hh.
    injection Hh as <-. simpl. rewrite lookup_insert_eq.
    now rewrite (libraryApiSearch_strip config (token req)
                   [("filters", VObj (search_filters (body req)))] s f data
                   eq_refl eq_refl Hf Hr).
  - intros t' s' form Ht. apply Hlive; [reflexivity|].
    unfold mediaItemCache_ttl. lia.
  - intros t' s' form Ht. unfold loadFromSearch.
    rewrite (Hdead t' (mkRequest (userId req) (token req) form) s' eq_refl Ht).
    reflexivity.
Qed.

(** X14.  After the albums were listed without error, /getAlbums for the
    same user answers, for the next 10 minutes, with the same listing,
    without any request to the upstream and without changing the stores. *)
Theorem albums_then_albums st t req s f data :
  getItem t (userId req) (albumCache st) = None ->
  libraryApiGetAlbums config (token req) s = Some f ->
  returned f = Ok data ->
  albums_error data = VNull ->
  exists h,
    getAlbums config st t req s = Some h
    /\ reply h = Ok (mkResponse (VNum 200) (album_body data))
    /\ requested h = calls f
    /\ forall t' s',
         t' < t + 10 * 60 * 1000 ->
         getAlbums config (final h) t' req s'
         = Some (mkHandled (final h)
                   (Ok (mkResponse (VNum 200) (album_body data))) []).
Proof.
  intros Hmiss Hf Hr He. unfold getAlbums at 1.
  rewrite Hmiss, Hf, Hr, He. simpl.
  eexists. split; [reflexivity|]. simpl.
  split; [reflexivity|]. split; [reflexivity|].
  intros t' s' Ht. unfold getAlbums. simpl.
  rewrite getItem_setItem_live by (unfold albumCache_ttl; lia).
  reflexivity.
Qed.

(** ** The session middleware *)

(** X15.  The middleware that fills [res.locals]: without a user, or
    without a profile, the name is ['-'] and the avatar URL is empty.  It
    throws only for a profile whose [photos] is truthy, and it does throw
    when [photos] is an empty list; when the first photo is an object, the
    avatar URL is that photo's [value].  A profile with a name gets its given
    name, or else its display name. *)
Theorem user_locals_defaults user :
  let profile := field_of user "profile" in
  (truthy user = false \/ truthy profile = false ->
   user_locals user = Ok (VStr "-", VStr ""))
  /\ (forall e, user_locals user = Throw e ->
      truthy user = true /\ truthy (field_of profile "photos") = true)
  /\ (truthy user = true -> field_of profile "photos" = VArr [] ->
      exists e, user_locals user = Throw e)
  /\ (forall o more,
        truthy user = true ->
        field_of profile "photos" = VArr (VObj o :: more) ->
        exists name, user_locals user = Ok (name, get_field "value" o))
  /\ (forall name avatarUrl,
        truthy user = true -> truthy profile = true ->
        truthy (field_of profile "name") = true ->
        user_locals user = Ok (name, avatarUrl) ->
        name = js_or (field_of (field_of profile "name") "givenName")
                     (field_of profile "displayName")).
Proof.
  intros profile. unfold user_locals. fold profile.
  destruct (truthy user) eqn:Hu.
  - fold profile. split; [|split; [|split; [|split]]].
    + intros [H|H]; [discriminate|]. rewrite H. reflexivity.
    + intros e. destruct (truthy profile); simpl; [|discriminate].
      destruct (truthy (field_of profile "photos")); [|discriminate].
      now split.
    + intros _ Hp.
      assert (Hprof : truthy profile = true).
      { destruct profile; try reflexivity; discriminate Hp. }
      rewrite Hprof, Hp. simpl. eauto.
    + intros o more _ Hp.
      assert (Hprof : truthy profile = true).
      { destruct profile; try reflexivity; discriminate Hp. }
      rewrite Hprof, Hp. simpl. eauto.
    + intros name avatarUrl _ Hprof Hn. rewrite Hprof, Hn. simpl.
      destruct (truthy (field_of profile "photos")).
      * destruct (first_photo_value _); simpl; [|discriminate].
        now intros [= <- _].
      * now intros [= <- _].
  - split; [|split; [|split; [|split]]]; try discriminate.
    + intros _. rewrite Hu. reflexivity.
    + intros e. rewrite Hu. discriminate.
Qed.

End MoreProperties.

(** * The statements at sample inputs *)

Lemma libraryApiSearch_stops_exactly_witness :
  Forall (fun r => search_page_ok r = true) ([first_page] ++ [last_page])
  /\ libraryApiSearch sample_config (token alice) (body alice)
       (map Ok [first_page] ++ Ok last_page :: [])
     = Some (mkFetched
               (Ok (mkSearchData [image 1; image 3]
                      [("albumId", VStr "abc"); ("pageSize", VNum 100);
                       ("pageToken", VUndefined)]
                      VNull))
               [mkApiCall (token alice)
                  [("albumId", VStr "abc"); ("pageSize", VNum 100)];
                mkApiCall (token alice)
                  [("albumId", VStr "abc"); ("pageSize", VNum 100);
                   ("pageToken", VStr "t1")]]
               [])
  /\ libraryApiSearch two_photos (token alice) (body alice)
       (map Ok [] ++ Ok (search_page [image 1; image 2] (VStr "t1")) :: [Ok last_page])
     = Some (mkFetched
               (Ok (mkSearchData [image 1; image 2]
                      [("albumId", VStr "abc"); ("pageSize", VNum 100);
                       ("pageToken", VStr "t1")]
                      VNull))
               [mkApiCall (token alice)
                  [("albumId", VStr "abc"); ("pageSize", VNum 100)]]
               [Ok last_page]).
Proof.
  assert (H : Forall (fun r => search_page_ok r = true)
                ([first_page] ++ [last_page])) by (repeat constructor).
  split; [exact H|]. split.
  - apply (libraryApiSearch_stops_exactly sample_config (token alice)
             (body alice) [first_page] last_page [] H).
    split; [reflexivity | right; reflexivity].
  - apply (libraryApiSearch_stops_exactly two_photos (token alice)
             (body alice) [] (search_page [image 1; image 2] (VStr "t1"))
             [Ok last_page]).
    + repeat constructor.
    + split; [reflexivity | left; simpl; lia].
Defined.

Lemma failed_page_leaves_stores_witness :
  all_continue sample_config 0 [first_page] = true
  /\ has_error_body unauthenticated = true
  /\ libraryApiSearch sample_config (token alice) (body alice)
       (map Ok [first_page] ++ Throw unauthenticated :: [])
     = Some (mkFetched
               (Ok (mkSearchData [image 1]
                      [("albumId", VStr "abc"); ("pageSize", VNum 100);
                       ("pageToken", VStr "t1")]
                      (logger_error sample_config
                         (VObj [("code", VNum 401);
                                ("message",
                                 VStr "Request had invalid authentication credentials.");
                                ("status", VStr "UNAUTHENTICATED")]))))
               [mkApiCall (token alice)
                  [("albumId", VStr "abc"); ("pageSize", VNum 100)];
                mkApiCall (token alice)
                  [("albumId", VStr "abc"); ("pageSize", VNum 100);
                   ("pageToken", VStr "t1")]]
               [])
  /\ returnPhotos alice_stores 5000 "alice"
       (mkSearchData [image 1]
          [("albumId", VStr "abc"); ("pageSize", VNum 100);
           ("pageToken", VStr "t1")]
          (logger_error sample_config (nested_error unauthenticated)))
       [("albumId", VStr "abc"); ("pageSize", VNum 100);
        ("pageToken", VStr "t1")]
     = (alice_stores,
        Ok (mkResponse (VNum 401)
              (logger_error sample_config (nested_error unauthenticated)))).
Proof.
  assert (Hc : all_continue sample_config 0 [first_page] = true) by reflexivity.
  assert (Hb : has_error_body unauthenticated = true) by reflexivity.
  split; [exact Hc|]. split; [exact Hb|].
  destruct (failed_page_leaves_stores sample_config alice_stores 5000 "alice"
              (token alice) (body alice) [first_page] unauthenticated [] Hc Hb)
    as (Hrun & _ & Hret & _).
  split; [exact Hrun | exact Hret].
Defined.

Lemma payload_code_is_passed_on :
  exists data sent,
    libraryApiSearch sample_config (token alice) (body alice)
      [Ok first_page; Throw mismatched_401]
    = Some (mkFetched (Ok data) sent [])
    /\ field_of mismatched_401 "statusCode" = VNum 401
    /\ photos data = [image 1]
    /\ field_of (error data) "code" = VNum 403
    /\ field_of (error data) "code" <> VNum 401
    /\ returnPhotos no_stores 0 "alice" data (parameters data)
       = (no_stores, Ok (mkResponse (VNum 403) (error data))).
Proof.
  do 2 eexists. split; [reflexivity|]. simpl.
  split; [reflexivity|]. split; [reflexivity|]. split; [reflexivity|].
  split; [discriminate | reflexivity].
Qed.

Lemma album_video_is_dropped :
  exists h items,
    loadFromAlbum sample_config no_stores 0 alice
      [Ok (search_page [image 1; video 2] VUndefined)] = Some h
    /\ reply h
       = Ok (mkResponse (VNum 200)
               (VObj [("photos", VArr items);
                      ("parameters", VObj [("albumId", VStr "abc")])]))
    /\ items = [image 1]
    /\ ~ In (video 2) items.
Proof.
  do 2 eexists. split; [reflexivity|]. simpl.
  split; [reflexivity|]. split; [reflexivity|].
  intros [H|[]]. discriminate H.
Qed.

Lemma loadFromAlbum_keeps_images_only_witness :
  exists h,
    loadFromAlbum sample_config no_stores 0 alice
      [Ok (search_page [image 1; video 2] VUndefined)] = Some h
    /\ exists items kept,
         reply h = Ok (mkResponse (VNum 200)
                         (VObj [("photos", VArr items);
                                ("parameters", VObj kept)]))
         /\ Forall image_item items.
Proof.
  eexists. split; [reflexivity|].
  destruct (loadFromAlbum_keeps_images_only sample_config no_stores 0 alice
              [Ok (search_page [image 1; video 2] VUndefined)] _ eq_refl)
    as [(e & Hr & _)|[(e & Hr & _)|(items & kept & Hr & Himg & _)]].
  - discriminate Hr.
  - exfalso. simpl in Hr. injection Hr as Hs He. subst e. discriminate Hs.
  - exists items, kept. split; assumption.
Defined.

Lemma getQueue_three_branches_witness :
  (getItem 1000 "alice" (mediaItemCache alice_stores) = Some [image 1]
   /\ storage alice_stores !! "alice" = Some (mkStored [("albumId", VStr "abc")])
   /\ getQueue sample_config alice_stores 1000 alice [Ok last_page]
      = Some (mkHandled alice_stores
                (Ok (mkResponse (VNum 200)
                       (VObj [("photos", VArr [image 1]);
                              ("parameters", VObj [("albumId", VStr "abc")])])))
                []))
  /\ (getItem 4000000 "alice" (mediaItemCache alice_stores) = None
      /\ exists h,
           getQueue sample_config alice_stores 4000000 alice [Ok last_page]
             = Some h
           /\ reply h
              = Ok (mkResponse (VNum 200)
                      (VObj [("photos", VArr [image 3]);
                             ("parameters", VObj [("albumId", VStr "abc")])]))
           /\ getItem 4000000 "alice" (mediaItemCache (final h)) = Some [image 3]
           /\ storage (final h) !! "alice"
              = Some (mkStored [("albumId", VStr "abc")]))
  /\ (getItem 0 "alice" (mediaItemCache no_stores) = None
      /\ storage no_stores !! "alice" = None
      /\ getQueue sample_config no_stores 0 alice []
         = Some (mkHandled no_stores (Ok (mkResponse (VNum 200) (VObj []))) [])).
Proof.
  split; [|split].
  - destruct (getQueue_three_branches sample_config alice_stores 1000 alice
                [Ok last_page]) as (Hhit & _ & _).
    split; [reflexivity|]. split; [reflexivity|].
    apply (Hhit [image 1] (mkStored [("albumId", VStr "abc")]));
      reflexivity.
  - destruct (getQueue_three_branches sample_config alice_stores 4000000 alice
                [Ok last_page]) as (_ & Hreplay & _).
    split; [reflexivity|].
    destruct (Hreplay (mkStored [("albumId", VStr "abc")]) eq_refl eq_refl)
      as [_ Hok].
    destruct (Hok _ _ eq_refl eq_refl eq_refl)
      as (h & kept & Hq & _ & Hr & Hc & Hs & Hk).
    exists h. split; [exact Hq|].
    rewrite (Hk eq_refl eq_refl) in Hr, Hs.
    split; [exact Hr|]. split; [exact Hc | exact Hs].
  - destruct (getQueue_three_branches sample_config no_stores 0 alice [])
      as (_ & _ & Hnew).
    split; [reflexivity|]. split; [reflexivity|].
    apply Hnew; reflexivity.
Defined.

Lemma returnPhotos_strips_page_fields_witness :
  truthy (error (mkSearchData [image 1] [] VNull)) = false
  /\ exists kept,
       storage
         (fst (returnPhotos no_stores 0 "alice" (mkSearchData [image 1] [] VNull)
                 [("albumId", VStr "abc"); ("pageSize", VNum 100);
                  ("pageToken", VStr "t1")])) !! "alice"
       = Some (mkStored kept)
       /\ has_field "pageToken" kept = false
       /\ has_field "pageSize" kept = false
       /\ lookup_field "albumId" kept = Some (VStr "abc").
Proof.
  split; [reflexivity|].
  destruct (returnPhotos_strips_page_fields sample_config no_stores 0 "alice"
              (mkSearchData [image 1] [] VNull)
              [("albumId", VStr "abc"); ("pageSize", VNum 100);
               ("pageToken", VStr "t1")] eq_refl)
    as [(kept & Hs & Ht & Hp & Hk & _) _].
  exists kept. split; [exact Hs|]. split; [exact Ht|]. split; [exact Hp|].
  rewrite Hk by discriminate. reflexivity.
Defined.

Lemma transport_failure_has_no_code :
  exists data sent,
    libraryApiSearch sample_config (token alice) (body alice)
      [Throw connection_refused]
    = Some (mkFetched (Ok data) sent [])
    /\ error data
       = logger_error sample_config
           (VObj [("name", VStr "RequestError"); ("code", VUndefined);
                  ("message", VStr "Error: connect ECONNREFUSED")])
    /\ field_of (error data) "code" = VUndefined
    /\ structured_error (error data) = false.
Proof.
  do 2 eexists. split; [reflexivity|]. simpl.
  split; [reflexivity|]. split; reflexivity.
Qed.

Lemma fetchers_return_failures_as_data_witness :
  has_error_body connection_refused = true
  /\ all_continue sample_config 0 [first_page] = true
  /\ all_have_token [albums_page [album "a1"; VNull] (VStr "n1")] = true
  /\ (exists p sent,
        libraryApiSearch sample_config (token alice) (body alice)
          (map Ok [first_page] ++ Throw connection_refused :: [])
        = Some (mkFetched
                  (Ok (mkSearchData [image 1] p
                         (logger_error sample_config
                            (VObj [("name", VStr "RequestError");
                                   ("code", VUndefined);
                                   ("message",
                                    VStr "Error: connect ECONNREFUSED")]))))
                  sent []))
  /\ (exists sent,
        libraryApiGetAlbums sample_config (token alice)
          (map Ok [albums_page [album "a1"; VNull] (VStr "n1")]
             ++ Throw connection_refused :: [])
        = Some (mkFetched
                  (Ok (mkAlbumData [album "a1"]
                         (logger_error sample_config
                            (VObj [("name", VStr "RequestError");
                                   ("code", VUndefined);
                                   ("message",
                                    VStr "Error: connect ECONNREFUSED")]))))
                  sent [])).
Proof.
  split; [reflexivity|]. split; [reflexivity|]. split; [reflexivity|].
  destruct (fetchers_return_failures_as_data sample_config (token alice)
              (body alice) [first_page]
              [albums_page [album "a1"; VNull] (VStr "n1")]
              connection_refused [] eq_refl eq_refl eq_refl)
    as (Hs & Ha & _).
  split; [exact Hs | exact Ha].
Defined.

Lemma cache_round_trip_witness :
  (1000 < 0 + 55 * 60 * 1000
   /\ getItem 1000 "alice"
        (setItem mediaItemCache_ttl 0 "alice" [image 1] (mediaItemCache no_stores))
      = Some [image 1])
  /\ (0 + 55 * 60 * 1000 < 3300001
      /\ getItem 3300001 "alice"
           (setItem mediaItemCache_ttl 0 "alice" [image 1] (mediaItemCache no_stores))
         = None)
  /\ (1000 < 0 + 10 * 60 * 1000
      /\ getItem 1000 "alice"
           (setItem albumCache_ttl 0 "alice" (mkAlbumData [album "a1"] VNull)
              (albumCache no_stores))
         = Some (mkAlbumData [album "a1"] VNull))
  /\ (0 + 10 * 60 * 1000 < 600001
      /\ getItem 600001 "alice"
           (setItem albumCache_ttl 0 "alice" (mkAlbumData [album "a1"] VNull)
              (albumCache no_stores))
         = None).
Proof.
  destruct (cache_round_trip no_stores "alice" [image 1]
              (mkAlbumData [album "a1"] VNull) 0 1000)
    as (_ & _ & Hm & _ & Ha & _).
  destruct (cache_round_trip no_stores "alice" [image 1]
              (mkAlbumData [album "a1"] VNull) 0 3300001)
    as (_ & _ & _ & Hm' & _ & _).
  destruct (cache_round_trip no_stores "alice" [image 1]
              (mkAlbumData [album "a1"] VNull) 0 600001)
    as (_ & _ & _ & _ & _ & Ha').
  split; [split; [lia | apply Hm; lia]|].
  split; [split; [lia | apply Hm'; lia]|].
  split; [split; [lia | apply Ha; lia]|].
  split; [lia | apply Ha'; lia].
Defined.

Lemma getAlbums_lists_everything_witness :
  (getItem 1000 "alice" (albumCache listed_stores)
   = Some (mkAlbumData [album "a1"] VNull)
   /\ getAlbums sample_config listed_stores 1000 alice []
      = Some (mkHandled listed_stores
                (Ok (mkResponse (VNum 200)
                       (VObj [("albums", VArr [album "a1"]); ("error", VNull)])))
                []))
  /\ (getItem 0 "alice" (albumCache no_stores) = None
      /\ all_have_token [albums_page [album "a1"; VNull] (VStr "n1")] = true
      /\ album_page_ok (albums_page [album "a2"] VUndefined) = true
      /\ nullish (page_token (albums_page [album "a2"] VUndefined)) = true
      /\ exists h,
           getAlbums sample_config no_stores 0 alice
             (map Ok [albums_page [album "a1"; VNull] (VStr "n1")]
                ++ Ok (albums_page [album "a2"] VUndefined) :: [])
           = Some h
           /\ reply h
              = Ok (mkResponse (VNum 200)
                      (VObj [("albums", VArr [album "a1"; album "a2"]);
                             ("error", VNull)]))
           /\ getItem 0 "alice" (albumCache (final h))
              = Some (mkAlbumData [album "a1"; album "a2"] VNull))
  /\ (getItem 700000 "alice" (albumCache listed_stores) = None
      /\ has_error_body unauthenticated = true
      /\ exists h,
           getAlbums sample_config listed_stores 700000 alice
             (map Ok [] ++ Throw unauthenticated :: [])
           = Some h
           /\ reply h
              = Ok (mkResponse (VNum 401)
                      (logger_error sample_config
                         (nested_error unauthenticated)))
           /\ albumCache (final h) !! "alice" = None).
Proof.
  split; [|split].
  - destruct (getAlbums_lists_everything sample_config listed_stores 1000 alice)
      as (Hhit & _).
    split; [reflexivity|].
    apply (Hhit (mkAlbumData [album "a1"] VNull) []). reflexivity.
  - destruct (getAlbums_lists_everything sample_config no_stores 0 alice)
      as (_ & Hall & _).
    do 4 (split; [reflexivity|]).
    destruct (Hall [albums_page [album "a1"; VNull] (VStr "n1")]
                (albums_page [album "a2"] VUndefined) []
                eq_refl eq_refl eq_refl eq_refl)
      as (h & Hq & Hr & _ & Hc & _).
    exists h. split; [exact Hq|]. split; [exact Hr | exact Hc].
  - destruct (getAlbums_lists_everything sample_config listed_stores 700000 alice)
      as (_ & _ & _ & _ & Hfail & _).
    do 2 (split; [reflexivity|]).
    destruct (Hfail [] unauthenticated [] eq_refl eq_refl eq_refl)
      as (h & Hq & Hr & Hgone).
    exists h. split; [exact Hq|]. split; [exact Hr | exact Hgone].
Defined.

(** C8.  The failure branch of /getAlbums is reached only when the fetcher
    returns its error as data.  At time 700000 alice's listing, cached at
    time 0, has lapsed but its slot is still held; the albums request is
    answered 401 with an empty body.  The catch block of the fetcher throws
    while reading [err.error.error], the handler is rejected before
    [albumCache.removeItem], and the slot is still there. *)
Theorem getAlbums_rejection_keeps_stale_slot :
  getItem 700000 "alice" (albumCache listed_stores) = None
  /\ is_Some (albumCache listed_stores !! "alice")
  /\ has_error_body bare_401 = false
  /\ getAlbums sample_config listed_stores 700000 alice [Throw bare_401]
     = Some (mkHandled listed_stores
               (Throw (TypeError "Cannot read properties of undefined"))
               [mkApiCall (token alice) [("pageSize", VNum 50)]]).
Proof.
  split; [reflexivity|].
  assert (Hslot : is_Some (albumCache listed_stores !! "alice")).
  { unfold listed_stores, setItem. simpl. rewrite lookup_insert_eq. eauto. }
  split; [exact Hslot|]. split; reflexivity.
Qed.

Lemma error_body_is_not_wrapped :
  returnError (nested_error unauthenticated)
  = Ok (mkResponse (VNum 401) (nested_error unauthenticated))
  /\ error_envelope (nested_error unauthenticated) = false
  /\ exists h body,
       loadFromAlbum sample_config no_stores 0 alice [Throw connection_refused]
       = Some h
       /\ reply h = Ok (mkResponse (VNum 500) body)
       /\ body = logger_error sample_config
                   (VObj [("name", VStr "RequestError"); ("code", VUndefined);
                          ("message", VStr "Error: connect ECONNREFUSED")])
       /\ error_envelope body = false.
Proof.
  split; [reflexivity|]. split; [reflexivity|].
  do 2 eexists. split; [reflexivity|]. simpl.
  split; [reflexivity|]. split; reflexivity.
Qed.

Lemma returnError_sends_error_witness :
  truthy (nested_error unauthenticated) = true
  /\ returnError (nested_error unauthenticated)
     = Ok (mkResponse (VNum 401) (nested_error unauthenticated))
  /\ truthy (exception_error connection_refused) = true
  /\ returnError (exception_error connection_refused)
     = Ok (mkResponse (VNum 500) (exception_error connection_refused)).
Proof.
  split; [reflexivity|].
  split; [exact (proj1 (returnError_sends_error sample_config
                         (nested_error unauthenticated) eq_refl))|].
  split; [reflexivity|].
  exact (proj1 (returnError_sends_error sample_config
                  (exception_error connection_refused) eq_refl)).
Defined.

Lemma getQueue_cache_hit_needs_record_witness :
  (getItem 1000 "alice" (mediaItemCache orphan_stores) = Some [image 1]
   /\ storage orphan_stores !! "alice" = None
   /\ getQueue sample_config orphan_stores 1000 alice []
      = Some (mkHandled orphan_stores
                (Throw (TypeError "Cannot read properties of undefined")) []))
  /\ (reachable sample_config alice_stores
      /\ getItem 1000 "alice" (mediaItemCache alice_stores) = Some [image 1]
      /\ getQueue sample_config alice_stores 1000 alice []
         = Some (mkHandled alice_stores
                   (Ok (mkResponse (VNum 200)
                          (VObj [("photos", VArr [image 1]);
                                 ("parameters",
                                  VObj [("albumId", VStr "abc")])])))
                   [])).
Proof.
  destruct (getQueue_cache_hit_needs_record sample_config)
    as (Hthrow & _ & _ & Hhit).
  split.
  - split; [reflexivity|]. split; [reflexivity|].
    apply (Hthrow orphan_stores 1000 alice [] [image 1]); reflexivity.
  - assert (Hr : reachable sample_config alice_stores).
    { exact (reachable_loadFromAlbum sample_config no_stores 0 alice
               [Ok (search_page [image 1; video 2] VUndefined)] _
               (reachable_start sample_config) eq_refl). }
    split; [exact Hr|]. split; [reflexivity|].
    destruct (Hhit alice_stores 1000 alice [] [image 1] Hr eq_refl)
      as (record & Hrec & Hq).
    assert (record = mkStored [("albumId", VStr "abc")]) as ->.
    { assert (Hl : storage alice_stores !! "alice"
                   = Some (mkStored [("albumId", VStr "abc")])) by reflexivity.
      change (storage alice_stores !! "alice" = Some record) in Hrec.
      rewrite Hl in Hrec. now injection Hrec. }
    exact Hq.
Defined.

(** A response without a body, or a failure whose exception has no [error]
    property, is not turned into data: the catch block throws while reading
    [err.error.error], and the fetcher's promise is rejected. *)
Example missing_body_rejects_the_fetcher :
  libraryApiSearch sample_config (token alice) (body alice) [Ok VUndefined]
  = Some (mkFetched
            (Throw (TypeError "Cannot read properties of undefined"))
            [mkApiCall (token alice)
               [("albumId", VStr "abc"); ("pageSize", VNum 100)]]
            [])
  /\ libraryApiSearch sample_config (token alice) (body alice)
       [Throw (VObj [("name", VStr "StatusCodeError");
                     ("statusCode", VNum 401);
                     ("message", VStr "401 - undefined")])]
     = Some (mkFetched
               (Throw (TypeError "Cannot read properties of undefined"))
               [mkApiCall (token alice)
                  [("albumId", VStr "abc"); ("pageSize", VNum 100)]]
               []).
Proof. split; reflexivity. Qed.

(** * The further properties at sample inputs *)

Lemma constructDate_sets_given_parts_witness :
  "hour" <> "year" /\ "hour" <> "month" /\ "hour" <> "day"
  /\ constructDate (VStr "2018") (VStr "") (VStr "24")
     = [("year", VStr "2018"); ("day", VStr "24")]
  /\ lookup_field "month" (constructDate (VStr "2018") (VStr "") (VStr "24"))
     = None
  /\ lookup_field "hour" (constructDate (VStr "2018") (VStr "") (VStr "24"))
     = None.
Proof.
  destruct (constructDate_sets_given_parts (VStr "2018") (VStr "") (VStr "24"))
    as (Hlist & _ & Hm & _ & Hk & _).
  assert (H1 : "hour" <> "year") by discriminate.
  assert (H2 : "hour" <> "month") by discriminate.
  assert (H3 : "hour" <> "day") by discriminate.
  split; [exact H1|]. split; [exact H2|]. split; [exact H3|].
  split; [exact Hlist|]. split; [exact Hm|]. exact (Hk "hour" H1 H2 H3).
Defined.

Lemma search_filters_date_witness :
  loosely_equals "exact" (get_field "dateFilter" search_form) = true
  /\ lookup_field "dateFilter" (search_filters search_form)
     = Some (VObj [("dates", VObj [("year", VStr "2018")])])
  /\ loosely_equals "exact" (get_field "dateFilter" (body alice)) = false
  /\ loosely_equals "range" (get_field "dateFilter" (body alice)) = false
  /\ lookup_field "dateFilter" (search_filters (body alice)) = None.
Proof.
  destruct (search_filters_date search_form) as (Hexact & _ & _ & _).
  destruct (search_filters_date (body alice)) as (_ & _ & Hnone & _).
  split; [reflexivity|].
  split; [exact (proj2 (Hexact eq_refl))|].
  split; [reflexivity|]. split; [reflexivity|].
  exact (Hnone eq_refl eq_refl).
Defined.

Lemma search_items_idempotent_witness :
  search_items first_page = Ok [image 1]
  /\ search_items (search_page [image 1] VNull) = Ok [image 1].
Proof.
  split; [reflexivity|].
  exact (search_items_idempotent first_page [image 1] VNull eq_refl).
Defined.

Lemma libraryApiSearch_success_witness :
  exists f data,
    libraryApiSearch sample_config (token alice) (body alice)
      [Ok first_page; Ok last_page; Ok first_page] = Some f
    /\ returned f = Ok data
    /\ error data = VNull
    /\ exists pages last,
         [Ok first_page; Ok last_page; Ok first_page]
         = map Ok pages ++ Ok last :: unread f
         /\ photos data = gathered (pages ++ [last])
         /\ length (calls f) = S (length pages)
         /\ (photosToLoad sample_config <= Z.of_nat (length (photos data))
             \/ nullish (page_token last) = true).
Proof.
  do 2 eexists. split; [reflexivity|]. split; [reflexivity|].
  split; [reflexivity|].
  destruct (libraryApiSearch_success sample_config (token alice) (body alice)
              [Ok first_page; Ok last_page; Ok first_page] _ _
              eq_refl eq_refl)
    as (_ & Hdone).
  destruct (Hdone eq_refl)
    as (pages & last & Hs & _ & _ & Hp & Hc & _ & Hstop).
  exists pages, last. split; [exact Hs|]. split; [exact Hp|].
  split; [exact Hc | exact Hstop].
Defined.

Lemma libraryApiSearch_requests_witness :
  exists f,
    libraryApiSearch sample_config (token alice) (body alice)
      [Ok first_page; Throw unauthenticated; Ok last_page] = Some f
    /\ Forall (fun c =>
         bearer c = token alice
         /\ lookup_field "pageSize" (json c) = Some (VNum 100)
         /\ lookup_field "albumId" (json c) = Some (VStr "abc")) (calls f)
    /\ (length (calls f) + length (unread f) = 3)%nat.
Proof.
  eexists. split; [reflexivity|].
  destruct (libraryApiSearch_requests sample_config (token alice) (body alice)
              [Ok first_page; Throw unauthenticated; Ok last_page] _ eq_refl)
    as (_ & Hall & Hlen).
  split; [|exact Hlen].
  eapply Forall_impl; [exact Hall|].
  intros c (Hb & Hsz & Hk). split; [exact Hb|]. split; [exact Hsz|].
  now rewrite Hk by discriminate.
Defined.

Lemma libraryApiSearch_photos_from_upstream_witness :
  exists f data,
    libraryApiSearch sample_config (token alice) (body alice)
      [Ok first_page; Ok last_page] = Some f
    /\ returned f = Ok data
    /\ photos data = [image 1; image 3]
    /\ sublist (photos data) [image 1; VNull; video 2; image 3]
    /\ Forall (fun x => truthy x = true /\ image_item x) (photos data).
Proof.
  do 2 eexists. split; [reflexivity|]. split; [reflexivity|].
  split; [reflexivity|].
  exact (libraryApiSearch_photos_from_upstream sample_config (token alice)
           (body alice) [Ok first_page; Ok last_page] _ _ eq_refl eq_refl).
Defined.

Lemma libraryApiGetAlbums_success_witness :
  exists f data,
    libraryApiGetAlbums sample_config (token alice)
      [Ok (albums_page [album "a1"; VNull] (VStr "n1"));
       Ok (albums_page [album "a2"] VUndefined)] = Some f
    /\ returned f = Ok data
    /\ albums_error data = VNull
    /\ albums data = [album "a1"; album "a2"]
    /\ Forall (fun x => truthy x = true) (albums data)
    /\ exists pages last,
         [Ok (albums_page [album "a1"; VNull] (VStr "n1"));
          Ok (albums_page [album "a2"] VUndefined)]
         = map Ok pages ++ Ok last :: unread f
         /\ nullish (page_token last) = true
         /\ albums data = listed (pages ++ [last]).
Proof.
  do 2 eexists. split; [reflexivity|]. split; [reflexivity|].
  split; [reflexivity|]. split; [reflexivity|].
  destruct (libraryApiGetAlbums_success sample_config (token alice)
              [Ok (albums_page [album "a1"; VNull] (VStr "n1"));
               Ok (albums_page [album "a2"] VUndefined)] _ _ eq_refl eq_refl)
    as (Hall & _ & Hdone).
  split; [exact Hall|].
  destruct (Hdone eq_refl) as (pages & last & Hs & _ & _ & Hstop & Ha).
  exists pages, last. split; [exact Hs|]. split; [exact Hstop | exact Ha].
Defined.

Lemma libraryApiGetAlbums_requests_witness :
  exists f more,
    libraryApiGetAlbums sample_config (token alice)
      [Ok (albums_page [album "a1"; VNull] (VStr "n1"));
       Ok (albums_page [album "a2"] VUndefined)] = Some f
    /\ calls f = mkApiCall (token alice) [("pageSize", VNum 50)] :: more
    /\ length more = 1%nat
    /\ (length (calls f) + length (unread f) = 2)%nat.
Proof.
  destruct (libraryApiGetAlbums_requests sample_config (token alice)
              [Ok (albums_page [album "a1"; VNull] (VStr "n1"));
               Ok (albums_page [album "a2"] VUndefined)] _ eq_refl)
    as ((more & Hc & _) & Hlen).
  eexists. exists more. split; [reflexivity|]. split; [exact Hc|].
  split; [|exact Hlen].
  simpl in Hc. injection Hc as <-. reflexivity.
Defined.

Lemma routes_keep_to_their_user_witness :
  exists h,
    loadFromAlbum sample_config alice_stores 5000
      (mkRequest "dave" (VStr "ya29.dave") [("albumId", VStr "xyz")])
      [Ok last_page] = Some h
    /\ "alice" <> "dave"
    /\ getItem 5000 "alice" (mediaItemCache (final h)) = Some [image 1]
    /\ storage (final h) !! "alice" = Some (mkStored [("albumId", VStr "abc")])
    /\ getItem 5000 "dave" (mediaItemCache (final h)) = Some [image 3]
    /\ albumCache (final h) = albumCache alice_stores.
Proof.
  eexists. split; [reflexivity|].
  assert (Hne : "alice" <> "dave") by discriminate.
  split; [exact Hne|].
  edestruct (routes_keep_to_their_user sample_config alice_stores 5000
               (mkRequest "dave" (VStr "ya29.dave") [("albumId", VStr "xyz")])
               [Ok last_page]) as (Hothers & Halbum & _).
  destruct (Hothers (or_intror (or_introl eq_refl)) "alice" Hne)
    as (Hm & _ & Hs).
  split; [unfold getItem; rewrite Hm; reflexivity|].
  split; [rewrite Hs; reflexivity|].
  split; [reflexivity|].
  exact (Halbum (or_intror (or_introl eq_refl))).
Defined.

Lemma routes_send_a_status_witness :
  exists h r,
    getQueue sample_config alice_stores 4000000 alice [Throw connection_refused]
    = Some h
    /\ reply h = Ok r
    /\ status r = VNum 500
    /\ truthy (status r) = true.
Proof.
  do 2 eexists. split; [reflexivity|]. split; [reflexivity|].
  split; [reflexivity|].
  exact (proj1 (routes_send_a_status sample_config alice_stores 4000000 alice
                  [Throw connection_refused] _ _
                  (or_intror (or_intror (or_introl eq_refl))) eq_refl)).
Defined.

Lemma album_then_queue_witness :
  exists f data h,
    libraryApiSearch sample_config (token alice)
      [("albumId", get_field "albumId" (body alice))] [Ok last_page] = Some f
    /\ returned f = Ok data
    /\ error data = VNull
    /\ loadFromAlbum sample_config no_stores 0 alice [Ok last_page] = Some h
    /\ 1000 < 0 + 55 * 60 * 1000
    /\ getQueue sample_config (final h) 1000 alice []
       = Some (mkHandled (final h)
                 (Ok (mkResponse (VNum 200)
                        (VObj [("photos", VArr [image 3]);
                               ("parameters", VObj [("albumId", VStr "abc")])])))
                 [])
    /\ 0 + 55 * 60 * 1000 < 4000000
    /\ getQueue sample_config (final h) 4000000 alice [Ok first_page]
       = loadFromAlbum sample_config (final h) 4000000 alice [Ok first_page].
Proof.
  destruct (album_then_queue sample_config no_stores 0 alice [Ok last_page]
              _ _ eq_refl eq_refl eq_refl) as (h & Hh & Hlive & Hdead).
  do 2 eexists. exists h.
  split; [reflexivity|]. split; [reflexivity|]. split; [reflexivity|].
  split; [exact Hh|]. split; [lia|].
  split; [exact (Hlive 1000 [] ltac:(lia))|].
  split; [lia|]. exact (Hdead 4000000 [Ok first_page] ltac:(lia)).
Defined.

Lemma search_then_queue_witness :
  exists f data h,
    libraryApiSearch sample_config (token carol)
      [("filters", VObj (search_filters (body carol)))] [Ok last_page] = Some f
    /\ returned f = Ok data
    /\ error data = VNull
    /\ loadFromSearch sample_config no_stores 0 carol [Ok last_page] = Some h
    /\ storage (final h) !! "carol"
       = Some (mkStored [("filters", VObj (search_filters search_form))])
    /\ 1000 < 0 + 55 * 60 * 1000
    /\ getQueue sample_config (final h) 1000
         (mkRequest "carol" (VStr "ya29.carol") []) []
       = Some (mkHandled (final h)
                 (Ok (mkResponse (VNum 200)
                        (VObj [("photos", VArr [image 3]);
                               ("parameters",
                                VObj [("filters",
                                       VObj (search_filters search_form))])])))
                 []).
Proof.
  destruct (search_then_queue sample_config no_stores 0 carol [Ok last_page]
              _ _ eq_refl eq_refl eq_refl) as (h & Hh & Hs & Hlive & _).
  do 2 eexists. exists h.
  split; [reflexivity|]. split; [reflexivity|]. split; [reflexivity|].
  split; [exact Hh|]. split; [exact Hs|]. split; [lia|].
  exact (Hlive 1000 [] [] ltac:(lia)).
Defined.

Lemma albums_then_albums_witness :
  exists f data h,
    getItem 0 "alice" (albumCache no_stores) = None
    /\ libraryApiGetAlbums sample_config (token alice)
         [Ok (albums_page [album "a1"; VNull] VUndefined)] = Some f
    /\ returned f = Ok data
    /\ albums_error data = VNull
    /\ getAlbums sample_config no_stores 0 alice
         [Ok (albums_page [album "a1"; VNull] VUndefined)] = Some h
    /\ 1000 < 0 + 10 * 60 * 1000
    /\ getAlbums sample_config (final h) 1000 alice []
       = Some (mkHandled (final h)
                 (Ok (mkResponse (VNum 200)
                        (VObj [("albums", VArr [album "a1"]);
                               ("error", VNull)])))
                 []).
Proof.
  destruct (albums_then_albums sample_config no_stores 0 alice
              [Ok (albums_page [album "a1"; VNull] VUndefined)] _ _
              eq_refl eq_refl eq_refl eq_refl) as (h & Hh & _ & _ & Hagain).
  do 2 eexists. exists h.
  split; [reflexivity|]. split; [reflexivity|]. split; [reflexivity|].
  split; [reflexivity|]. split; [exact Hh|]. split; [lia|].
  exact (Hagain 1000 [] ltac:(lia)).
Defined.

Lemma user_locals_defaults_witness :
  (truthy VUndefined = false
   /\ user_locals VUndefined = Ok (VStr "-", VStr ""))
  /\ (truthy bob_user = true
      /\ user_locals bob_user = Ok (VStr "Bob", VStr "https://pic/bob"))
  /\ (truthy (VObj [("profile", VObj [("photos", VArr [])])]) = true
      /\ exists e,
           user_locals (VObj [("profile", VObj [("photos", VArr [])])])
           = Throw e).
Proof.
  split; [|split].
  - split; [reflexivity|].
    exact (proj1 (user_locals_defaults VUndefined) (or_introl eq_refl)).
  - split; [reflexivity|].
    destruct (user_locals_defaults bob_user) as (_ & _ & _ & Hfirst & Hname).
    destruct (Hfirst _ _ eq_refl eq_refl) as (name & Hn).
    rewrite Hn. rewrite (Hname _ _ eq_refl eq_refl eq_refl Hn). reflexivity.
  - split; [reflexivity|].
    destruct (user_locals_defaults
                (VObj [("profile", VObj [("photos", VArr [])])]))
      as (_ & _ & Hempty & _).
    exact (Hempty eq_refl eq_refl).
Defined.
